(** * chargelab_monitor: change-detecting recorder of charger port states

    A shallow embedding of [chargelab_monitor.py].  The program polls an HTTP
    status endpoint for a fixed list of chargers, flattens each JSON answer
    into (port id, port status) pairs and appends a row to an SQLite table
    whenever the status of a port differs from the last status stored for it.

    Conventions of the embedding:
    - a Python [str] is a [string] (its UTF-8 encoding);
    - a value produced by [response.json()] or [response.text] is a [json];
      a Python [dict] with string keys is a [gmap string json];
    - a Python exception is a constructor of [exn]; code that may raise
      returns a [result];
    - the SQLite file is a [Database]: the rows of [sqlite_master], the rows
      of [charger_data] and the counter of [sqlite_sequence];
    - the file is the program's own: whatever else it may hold, a table
      named charger_data in it has the columns of lines 33-39;
    - resource exhaustion (disk full, rowid exhaustion, I/O errors, a second
      process locking the file) is outside the model. *)

From stdpp Require Import gmap strings list fin_maps pretty sorting.
From Stdlib Require Import ZArith Lia Ascii.

Set Default Proof Using "Type".
Set Warnings "-register-all".

(** ** Python values and exceptions *)

Module Py.

(** Values built by the [json] module: [None], [bool], [int], [float]
    (its IEEE-754 binary64 bit pattern), [str], [list] and [dict]. *)
Inductive json : Type :=
| JNull
| JBool (b : bool)
| JInt (n : Z)
| JFloat (bits : Z)
| JStr (s : string)
| JArr (l : list json)
| JObj (m : gmap string json).

(** The exception classes the program can meet.  All of them derive from
    [Exception]; a [RequestException] carries its [str(e)]. *)
Inductive exn : Type :=
| TypeError
| AttributeError
| KeyError
| OverflowError
| RecursionError
| ValueError
| RequestException (msg : string)
| OperationalError
| IntegrityError
| ProgrammingError.

Inductive result (A : Type) : Type :=
| Ok (a : A)
| Raise (e : exn).
Global Arguments Ok {A} a.
Global Arguments Raise {A} e.

Global Instance result_ret : MRet result := fun A a => Ok a.
Global Instance result_bind : MBind result := fun A B f r =>
  match r with
  | Ok a => f a
  | Raise e => Raise e
  end.

Definition isinstance_dict (v : json) : bool :=
  match v with JObj _ => true | _ => false end.

Definition isinstance_list (v : json) : bool :=
  match v with JArr _ => true | _ => false end.

(** [sub in s] on two strings: [sub] occurs in [s]. *)
Definition str_contains (sub s : string) : bool :=
  match String.index 0 sub s with
  | Some _ => true
  | None => false
  end.

(** [key == v] for a string [key]: only an equal [str] compares equal. *)
Definition str_eq (key : string) (v : json) : bool :=
  match v with
  | JStr s => String.eqb key s
  | _ => false
  end.

(** [key in v]: key membership on a dict, substring test on a str, element
    membership on a list, [TypeError] on everything else. *)
Definition contains (key : string) (v : json) : result bool :=
  match v with
  | JObj m => Ok (bool_decide (is_Some (m !! key)))
  | JStr s => Ok (str_contains key s)
  | JArr l => Ok (existsb (str_eq key) l)
  | JNull | JBool _ | JInt _ | JFloat _ => Raise TypeError
  end.

(** [v[key]] for a string [key]. *)
Definition getitem (v : json) (key : string) : result json :=
  match v with
  | JObj m =>
      match m !! key with
      | Some x => Ok x
      | None => Raise KeyError
      end
  | _ => Raise TypeError
  end.

(** [v.get(key, dflt)]: only a dict has the method. *)
Definition get (v : json) (key : string) (dflt : json) : result json :=
  match v with
  | JObj m => Ok (default dflt (m !! key))
  | _ => Raise AttributeError
  end.

End Py.
Export Py.

(** ** The State Fetcher: [extract_port_data] *)

Definition pair_t : Type := json * json.

Module Extract.

(** The body of [extract_port_data] runs with the local list [port_data] as
    state; an exception leaves the list as it was when raised. *)
Definition M (A : Type) : Type := list pair_t → list pair_t * result A.

Global Instance M_ret : MRet M := fun A a st => (st, Ok a).
Global Instance M_bind : MBind M := fun A B f c st =>
  match c st with
  | (st', Ok a) => f a st'
  | (st', Raise e) => (st', Raise e)
  end.

Definition lift {A} (r : result A) : M A := fun st => (st, r).

(** [port_data.append(p)] *)
Definition append (p : pair_t) : M unit := fun st => (st ++ [p], Ok tt).

(** [for x in l: body x] *)
Fixpoint for_each {A} (l : list A) (body : A → M unit) : M unit :=
  match l with
  | [] => mret tt
  | x :: rest => _ ← body x; for_each rest body
  end.

End Extract.

(** Unfolds the binds of both monads, and nothing else. *)
Ltac run_monad :=
  cbv beta iota zeta delta
    [mbind mret result_bind result_ret
     Extract.M_bind Extract.M_ret Extract.lift].

(** Lines 77-79: one pair-extraction step. *)
Definition extract_port (port : json) : Extract.M unit :=
  port_id ← Extract.lift (get port "portId" (JStr "unknown"));
  port_status ← Extract.lift (get port "status" (JStr "unknown"));
  Extract.append (port_id, port_status).

(** Line 76: the loop over the ports of one entity. *)
Definition extract_ports (ports : list json) : Extract.M unit :=
  Extract.for_each ports extract_port.

(** Line 75: ['ports' in entity and isinstance(entity['ports'], list)]. *)
Definition has_port_list (entity : json) : result bool :=
  has ← contains "ports" entity;
  if has : bool then
    ports ← getitem entity "ports";
    mret (isinstance_list ports)
  else mret false.

(** Lines 75-79: the body of the loop over the entities. *)
Definition extract_entity (entity : json) : Extract.M unit :=
  ok ← Extract.lift (has_port_list entity);
  if ok : bool then
    ports ← Extract.lift (getitem entity "ports");
    match ports with
    | JArr l => extract_ports l
    | _ => mret tt
    end
  else mret tt.

(** Line 74: the loop over the entities. *)
Definition extract_entities (entities : list json) : Extract.M unit :=
  Extract.for_each entities extract_entity.

(** Lines 71-79: the body of the [try] block. *)
Definition extract_body (response_data : json) : Extract.M unit :=
  has ← Extract.lift
    (if isinstance_dict response_data
     then contains "entities" response_data else Ok false);
  if has : bool then
    entities ← Extract.lift (getitem response_data "entities");
    match entities with
    | JArr l => extract_entities l
    | _ => mret tt
    end
  else mret tt.

Definition sentinel : list pair_t := [(JStr "unknown", JStr "error")].

(** Line 83: [port_data if port_data else [('unknown', 'error')]]; an empty
    list is falsy. *)
Definition or_sentinel (port_data : list pair_t) : list pair_t :=
  match port_data with
  | [] => sentinel
  | _ :: _ => port_data
  end.

(** Lines 66-83.  [except Exception] swallows whatever the body raised and
    keeps [port_data] as it stood. *)
Definition extract_port_data (response_data : json) : list pair_t :=
  let '(port_data, _) := extract_body response_data [] in
  or_sentinel port_data.

(** ** The State Fetcher: [query_api] *)

Definition API_BASE_URL : string :=
  "https://api-v1-blue.chargelab.io/core/v1/chargers".

Definition CHARGERS : list string :=
  ["NSP-BRI-01"; "NSP-BRI-02"; "NSP-MAS-01"; "NSP-MAS-02"; "NSP-MEM-01";
   "NSP-MEM-02"; "NSP-MIL-01"; "NSP-MIL-02"; "NSP-PIC-01"; "NSP-PIC-02";
   "NSP-WHY-01"; "NSP-WHY-02"; "NSP-WIN-01"; "NSP-WIN-02"].

(** What [requests.get(url, timeout=30)] hands back: the status code, the
    body as text, and what [response.json()] does with it.  It returns the
    parsed value or raises: [requests.exceptions.JSONDecodeError], a subclass
    of [RequestException], for a body that does not decode, and whatever
    else the decoder raises, such as [RecursionError] for a body nested too
    deep. *)
Record response : Type := Response {
  resp_status_code : Z;
  resp_text : string;
  resp_parsed : result json
}.

(** The network: a GET on a URL returns a response or raises.  What
    [requests] raises on purpose is a [RequestException] (time-out,
    connection error); the type leaves room for any other exception. *)
Definition network : Type := string → result response.

Definition requests_get (net : network) (url : string) : result response :=
  net url.

Definition response_json (r : response) : result json := resp_parsed r.

Record api_result : Type := ApiResult { status_code : Z; data : json }.

(** Lines 50-64.  The handler catches [RequestException] and nothing else:
    any other exception leaves [query_api]. *)
Definition query_api (net : network) (charger_name : string)
  : result api_result :=
  let url := API_BASE_URL +:+ "?filter_eq[name]=" +:+ charger_name in
  let body : result api_result :=
    r ← requests_get net url;
    d ← (if (resp_status_code r =? 200)%Z
         then response_json r else Ok (JStr (resp_text r)));
    mret (ApiResult (resp_status_code r) d) in
  match body with
  | Raise (RequestException msg) =>
      Ok (ApiResult 0 (JObj {["error" := JStr msg]}))
  | other => other
  end.

(** The Fetcher as [main] composes it (lines 137-138 and 100). *)
Definition fetch (net : network) (charger_name : string)
  : result (list pair_t) :=
  r ← query_api net charger_name;
  mret (extract_port_data (data r)).

(** ** The durable store *)

Module Sqlite.

(** Storage classes a bound parameter can have. *)
Inductive sqlval : Type :=
| SqlNull
| SqlInteger (n : Z)
| SqlReal (bits : Z)
| SqlText (s : string).

(** How the [sqlite3] module binds a Python value: [None] is NULL, [bool] is
    an [int], an [int] must fit 64 bits, [list] and [dict] are refused. *)
Definition bind_param (v : json) : result sqlval :=
  match v with
  | JNull => Ok SqlNull
  | JBool b => Ok (SqlInteger (if b then 1 else 0))
  | JInt n =>
      if ((- 2 ^ 63 <=? n) && (n <? 2 ^ 63))%Z
      then Ok (SqlInteger n) else Raise OverflowError
  | JFloat f => Ok (SqlReal f)
  | JStr s => Ok (SqlText s)
  | JArr _ | JObj _ => Raise ProgrammingError
  end.

Inductive objtype : Type := Table | Index.

Global Instance objtype_eq_dec : EqDecision objtype :=
  ltac:(solve_decision).

(** A row of [sqlite_master]. *)
Record schema_entry : Type := SchemaEntry {
  obj_type : objtype;
  obj_name : string;
  obj_tbl : string
}.

(** A row of [charger_data]; every column but [id] has TEXT affinity and is
    NOT NULL, so it holds a text. *)
Record Row : Type := MkRow {
  id : Z;
  charger_name : string;
  timestamp : string;
  port_id : string;
  port_status : string
}.

(** The file: the rows of [sqlite_master], the rows of the table
    [charger_data] and its AUTOINCREMENT counter.  A table that
    [sqlite_master] lists under the name charger_data is the table of lines
    33-39, the only one the program creates under that name; a view, or a
    table of another layout, under that name has no place in this type. *)
Record Database : Type := MkDatabase {
  sqlite_master : list schema_entry;
  charger_data : list Row;
  sqlite_sequence : Z
}.

(** The file [sqlite3.connect] creates when there is none. *)
Definition empty_db : Database := MkDatabase [] [] 0.

(** Identifiers compare without regard to ASCII case. *)
Definition lower_ascii (c : ascii) : ascii :=
  let n := nat_of_ascii c in
  if (65 <=? n)%nat && (n <=? 90)%nat then ascii_of_nat (n + 32) else c.

Fixpoint lower (s : string) : string :=
  match s with
  | EmptyString => EmptyString
  | String c rest => String (lower_ascii c) (lower rest)
  end.

Definition is_object (t : objtype) (name : string) (e : schema_entry) : bool :=
  bool_decide (obj_type e = t) && String.eqb (lower (obj_name e)) (lower name).

Definition has_object (t : objtype) (name : string) (db : Database) : bool :=
  existsb (is_object t name) (sqlite_master db).

Definition add_object (e : schema_entry) (db : Database) : Database :=
  MkDatabase (sqlite_master db ++ [e]) (charger_data db) (sqlite_sequence db).

(** Lines 32-40: [CREATE TABLE IF NOT EXISTS charger_data (...)].  Tables and
    indexes share one name space. *)
Definition create_table (db : Database) : result Database :=
  if has_object Table "charger_data" db then Ok db
  else if has_object Index "charger_data" db then Raise OperationalError
  else Ok (MkDatabase
             (sqlite_master db ++ [SchemaEntry Table "charger_data" "charger_data"])
             [] 0).

(** Lines 42-45: [CREATE INDEX IF NOT EXISTS idx_charger_name
    ON charger_data(charger_name)].  SQLite looks up the table, refuses an
    index name a table bears, passes over an index that exists, and only
    then resolves the column; the table of lines 33-39 has the column
    [charger_name] and is no view, the two other reasons SQLite has to
    refuse the statement. *)
Definition create_index (db : Database) : result Database :=
  if negb (has_object Table "charger_data" db) then Raise OperationalError
  else if has_object Table "idx_charger_name" db then Raise OperationalError
  else if has_object Index "idx_charger_name" db then Ok db
  else Ok (add_object (SchemaEntry Index "idx_charger_name" "charger_data") db).

(** A connection is the snapshot its open write transaction works on, if it
    has one.  What it changes reaches the file at [commit] only, and no other
    connection sees it before. *)
Definition Connection : Type := option Database.

Definition connect : Connection := None.

Definition view (file : Database) (conn : Connection) : Database :=
  default file conn.

Definition commit (file : Database) (conn : Connection) : Database :=
  view file conn.

(** [ORDER BY id DESC LIMIT 1]: the row with the greatest [id]. *)
Definition newest (rows : list Row) : option Row :=
  foldl (fun best r =>
           match best with
           | Some b => if (id b <? id r)%Z then Some r else Some b
           | None => Some r
           end) None rows.

Definition max_rowid (rows : list Row) : Z :=
  foldr (fun r m => Z.max (id r) m) 0%Z rows.

Section Affinity.

(** The text SQLite renders a REAL as; [None] for NaN, which it binds as
    NULL.  The rendering itself is SQLite's and is left open. *)
Variable real_to_text : Z → option string.

(** TEXT affinity: what a value becomes when stored in, or compared with, a
    TEXT column.  [None] is NULL. *)
Definition text_affinity (v : sqlval) : option string :=
  match v with
  | SqlNull => None
  | SqlInteger n => Some (pretty n)
  | SqlReal f => real_to_text f
  | SqlText s => Some s
  end.

(** Lines 89-93: [SELECT port_status FROM charger_data WHERE charger_name = ?
    AND port_id = ? ORDER BY id DESC LIMIT 1], run on [db].  A NULL
    parameter equals nothing. *)
Definition select_last (db : Database) (cn : string) (pid : json)
  : result (option Row) :=
  if negb (has_object Table "charger_data" db) then Raise OperationalError
  else
    p ← bind_param pid;
    mret (match text_affinity p with
          | Some p' =>
              newest (filter (fun r => charger_name r = cn ∧ port_id r = p')
                             (charger_data db))
          | None => None
          end).

(** Lines 111-114: [INSERT INTO charger_data (charger_name, timestamp,
    port_id, port_status) VALUES (?, ?, ?, ?)] on connection [conn], which
    opens a transaction if it has none.  AUTOINCREMENT gives the row an id
    above every id the table ever held. *)
Definition execute_insert (file : Database) (conn : Connection)
    (cn ts : string) (pid st : json) : result Connection :=
  let db := view file conn in
  if negb (has_object Table "charger_data" db) then Raise OperationalError
  else
    p ← bind_param pid;
    s ← bind_param st;
    match text_affinity p, text_affinity s with
    | Some p', Some s' =>
        let rowid := (Z.max (sqlite_sequence db) (max_rowid (charger_data db)) + 1)%Z in
        Ok (Some (MkDatabase (sqlite_master db)
                    (charger_data db ++ [MkRow rowid cn ts p' s'])
                    rowid))
    | _, _ => Raise IntegrityError
    end.

End Affinity.

End Sqlite.
Export Sqlite.

(** ** Store initialisation and the Change-Detecting Recorder *)

(** Lines 28-48.  Each statement takes effect as it runs; the function
    returns [None]. *)
Definition init_database (file : Database) : result unit * Database :=
  match create_table file with
  | Raise e => (Raise e, file)
  | Ok db1 =>
      match create_index db1 with
      | Raise e => (Raise e, db1)
      | Ok db2 => (Ok tt, db2)
      end
  end.

Section Recorder.

Variable real_to_text : Z → option string.

(** Lines 85-96.  The function opens a connection of its own, so it reads
    the file as last committed. *)
Definition get_last_port_state (file : Database) (charger_name : string)
    (port_id : json) : result (option string) :=
  let conn := connect in
  row ← select_last real_to_text (view file conn) charger_name port_id;
  mret (port_status <$> (row : option Row)).

(** [last_status is None or last_status != port_status]: a stored text
    differs from anything that is not the same [str]. *)
Definition status_changed (last_status : option string) (port_status : json)
  : bool :=
  match last_status with
  | None => true
  | Some s => negb (str_eq s port_status)
  end.

(** Lines 106-115: the loop over the pairs, on connection [conn]. *)
Fixpoint store_loop (file : Database) (charger_name timestamp : string)
    (port_data : list pair_t) (conn : Connection) (stored_any : bool)
  : result (Connection * bool) :=
  match port_data with
  | [] => Ok (conn, stored_any)
  | (port_id, port_status) :: rest =>
      last_status ← get_last_port_state file charger_name port_id;
      if status_changed last_status port_status then
        conn' ← execute_insert real_to_text file conn
                  charger_name timestamp port_id port_status;
        store_loop file charger_name timestamp rest conn' true
      else
        store_loop file charger_name timestamp rest conn stored_any
  end.

(** Lines 102-119: the Recorder proper, on pairs already extracted.  A call
    that raises never reaches [conn.commit()]: the file stays as it was. *)
Definition record (file : Database) (charger_name timestamp : string)
    (port_data : list pair_t) : result bool * Database :=
  let conn := connect in
  match store_loop file charger_name timestamp port_data conn false with
  | Ok (conn', stored_any) => (Ok stored_any, commit file conn')
  | Raise e => (Raise e, file)
  end.

(** Lines 98-119. *)
Definition store_data (file : Database) (charger_name timestamp : string)
    (response_data : json) : result bool * Database :=
  record file charger_name timestamp (extract_port_data response_data).

(** Lines 137-138: one entity of a cycle of [main], fetched then recorded. *)
Definition poll_once (net : network) (file : Database)
    (charger_name timestamp : string) : result bool * Database :=
  match query_api net charger_name with
  | Ok r => store_data file charger_name timestamp (data r)
  | Raise e => (Raise e, file)
  end.

End Recorder.

(** ** The Scheduler Loop *)

(** What the console shows of a cycle: a line (time stamp, charger) for every
    charger whose poll stored something (line 140). *)
Definition console : Type := list (string * string).

(** How [main] ends.  [init_database] runs before the [try]: what it raises
    leaves [main].  A [KeyboardInterrupt] and any [Exception] raised in the
    loop are caught, lines 144 and 146. *)
Inductive main_end : Type :=
| InitRaised (e : exn)
| Interrupted
| UnexpectedError (e : exn).

Section Scheduler.

Variable real_to_text : Z → option string.

(** Lines 136-140: the chargers of one cycle, polled in turn under one time
    stamp.  An exception ends the loop. *)
Fixpoint poll_chargers (net : network) (timestamp : string)
    (chargers : list string) (file : Database) (printed : console)
  : result unit * Database * console :=
  match chargers with
  | [] => (Ok tt, file, printed)
  | charger_name :: rest =>
      match poll_once real_to_text net file charger_name timestamp with
      | (Ok was_stored, file') =>
          poll_chargers net timestamp rest file'
            (if was_stored : bool
             then printed ++ [(timestamp, charger_name)] else printed)
      | (Raise e, file') => (Raise e, file', printed)
      end
  end.

(** Lines 133-142: the cycles [main] runs before the user interrupts it,
    each with the time [datetime.now()] gave it and the network as it was.
    The interrupt is taken to arrive during [time.sleep]. *)
Fixpoint run_cycles (cycles : list (string * network)) (file : Database)
    (printed : console) : main_end * Database * console :=
  match cycles with
  | [] => (Interrupted, file, printed)
  | (timestamp, net) :: rest =>
      match poll_chargers net timestamp CHARGERS file printed with
      | (Ok _, file', printed') => run_cycles rest file' printed'
      | (Raise e, file', printed') => (UnexpectedError e, file', printed')
      end
  end.

(** Lines 121-147. *)
Definition main (cycles : list (string * network)) (file : Database)
  : main_end * Database * console :=
  match init_database file with
  | (Ok _, file') => run_cycles cycles file' []
  | (Raise e, file') => (InitRaised e, file', [])
  end.

End Scheduler.

(** ** Vocabulary of the statements *)

(** A pair as the remote service sends it: two strings. *)
Definition text_pair (p : string * string) : pair_t := (JStr p.1, JStr p.2).

Definition table_exists (db : Database) : Prop :=
  has_object Table "charger_data" db = true.

(** The History Records of one (entity, sub-resource) pair. *)
Definition records_of (cn pid : string) (rows : list Row) : list Row :=
  filter (λ r, charger_name r = cn ∧ port_id r = pid) rows.

(** The last-known-state view: the status of the record with the highest
    sequence id, if the pair has a record. *)
Definition last_status (rows : list Row) (cn pid : string) : option string :=
  port_status <$> newest (records_of cn pid rows).

(** [r] is the most recent record of the pair: none has a higher id. *)
Definition most_recent (rows : list Row) (cn pid : string) (r : Row) : Prop :=
  r ∈ records_of cn pid rows ∧
  ∀ r', r' ∈ records_of cn pid rows → (id r' ≤ id r)%Z.

(** The pair's status is new with respect to the rows of [db]. *)
Definition changed (db : Database) (cn : string) (p : string * string) : Prop :=
  last_status (charger_data db) cn p.1 ≠ Some p.2.

Global Instance changed_dec db cn p : Decision (changed db cn p) :=
  ltac:(unfold changed; apply _).

Definition next_rowid (db : Database) : Z :=
  (Z.max (sqlite_sequence db) (max_rowid (charger_data db)) + 1)%Z.

(** One History Record appended to [db]. *)
Definition insert_text (cn ts : string) (db : Database) (p : string * string)
  : Database :=
  MkDatabase (sqlite_master db)
    (charger_data db ++ [MkRow (next_rowid db) cn ts p.1 p.2])
    (next_rowid db).

(** The connection of a call once it has inserted the pairs [sel]: it holds
    a transaction only if it inserted something. *)
Definition after_inserts (cn ts : string) (file : Database)
    (conn : Connection) (sel : list (string * string)) : Connection :=
  match sel with
  | [] => conn
  | _ :: _ => Some (foldl (insert_text cn ts) (view file conn) sel)
  end.

(** The records a list of pairs turns into, numbered from [next]. *)
Fixpoint fresh_rows (next : Z) (cn ts : string) (ps : list (string * string))
  : list Row :=
  match ps with
  | [] => []
  | p :: rest => MkRow next cn ts p.1 p.2 :: fresh_rows (next + 1) cn ts rest
  end.

(** The rows [db'] holds beyond those of [db]. *)
Definition appended (db db' : Database) : list Row :=
  drop (length (charger_data db)) (charger_data db').

(** Ordering by sequence id. *)
Fixpoint insert_by_id (r : Row) (l : list Row) : list Row :=
  match l with
  | [] => [r]
  | x :: rest =>
      if (id r <=? id x)%Z then r :: l else x :: insert_by_id r rest
  end.

Definition order_by_id (l : list Row) : list Row := foldr insert_by_id [] l.

(** The stored status values of a pair, ordered by sequence id. *)
Definition history (db : Database) (cn pid : string) : list string :=
  port_status <$> order_by_id (records_of cn pid (charger_data db)).

Definition no_adjacent_equal (l : list string) : Prop :=
  ∀ i a b, l !! i = Some a → l !! S i = Some b → a ≠ b.

(** The table is keyed by [id]: its rows come in increasing id order. *)
Definition keyed (db : Database) : Prop :=
  StronglySorted (λ a b, (id a < id b)%Z) (charger_data db).

(** The store [main] starts from when there is no file yet: [init_database]
    run on the file [sqlite3.connect] creates. *)
Definition initial_store : Database := (init_database empty_db).2.

(** What every poll keeps when no answer names a sub-resource twice: the
    table exists, is keyed, and no pair has two adjacent equal statuses. *)
Definition transitions_only (db : Database) : Prop :=
  table_exists db ∧ keyed db ∧
  ∀ cn pid,
    no_adjacent_equal (port_status <$> records_of cn pid (charger_data db)).

(** The store after a first poll of NSP-BRI-01 found port A1 available. *)
Definition one_record_store : Database :=
  MkDatabase (sqlite_master initial_store)
    [MkRow 1 "NSP-BRI-01" "2025-01-01T00:00:00" "A1" "available"] 1.

(** A poll: the entity, the time stamp and the pairs fetched for it. *)
Record poll : Type := Poll {
  poll_entity : string;
  poll_time : string;
  poll_pairs : list (string * string)
}.

(** The pair a dict-shaped port contributes. *)
Definition port_pair (m : gmap string json) : pair_t :=
  (default (JStr "unknown") (m !! "portId"),
   default (JStr "unknown") (m !! "status")).

(** A response without entities: no dict, no [entities] key, a value under
    the key that is no list, or an empty list. *)
Inductive no_entities : json → Prop :=
| not_a_dict v : isinstance_dict v = false → no_entities v
| missing_key m : m !! "entities" = None → no_entities (JObj m)
| not_a_list m e :
    m !! "entities" = Some e → isinstance_list e = false →
    no_entities (JObj m)
| empty_list m : m !! "entities" = Some (JArr []) → no_entities (JObj m).

(** A well-formed port and answer, as the remote service sends them. *)
Definition port_of (pid st : string) : json :=
  JObj (<["portId" := JStr pid]> {["status" := JStr st]}).

Definition answer_of (ports : list json) : json :=
  JObj {["entities" := JArr [JObj {["ports" := JArr ports]}]]}.

(** A network that answers every GET with status 200 and the body [v], and
    one on which every GET times out. *)
Definition answering (v : json) : network :=
  λ _, Ok (Response 200 "" (Ok v)).

Definition timing_out : network :=
  λ _, Raise (RequestException "Read timed out.").

(** The URL [query_api] asks for a charger. *)
Definition charger_url (charger_name : string) : string :=
  API_BASE_URL +:+ "?filter_eq[name]=" +:+ charger_name.

(** A GET that brings no parsed body and no exception [query_api] lets
    through: it raised a [RequestException], the status is not 200, or
    [response.json()] raised requests' [JSONDecodeError]. *)
Inductive no_answer : result response → Prop :=
| get_raised msg : no_answer (Raise (RequestException msg))
| bad_status r : resp_status_code r ≠ 200%Z → no_answer (Ok r)
| bad_body r msg :
    resp_parsed r = Raise (RequestException msg) → no_answer (Ok r).

(** The exception raised inside the [try] of [query_api], lines 54-58, if
    any: by the GET, or by [response.json()], called for status 200 only. *)
Definition try_error (outcome : result response) : option exn :=
  match outcome with
  | Raise e => Some e
  | Ok r =>
      if (resp_status_code r =? 200)%Z then
        match resp_parsed r with
        | Raise e => Some e
        | Ok _ => None
        end
      else None
  end.

Definition is_request_exception (e : exn) : bool :=
  match e with
  | RequestException _ => true
  | _ => false
  end.

(** The ports of a dict-shaped entity: the list under [ports], if any. *)
Definition entity_ports (m : gmap string json) : list json :=
  match m !! "ports" with
  | Some (JArr l) => l
  | _ => []
  end.

Definition dict_pair (port : json) : option pair_t :=
  match port with
  | JObj m => Some (port_pair m)
  | _ => None
  end.

(** An entity on which line 75 raises: ['ports' in entity] needs a
    container, and [entity['ports']] needs a dict. *)
Definition entity_raises (entity : json) : bool :=
  match entity with
  | JNull | JBool _ | JInt _ | JFloat _ => true
  | JStr s => str_contains "ports" s
  | JArr l => existsb (str_eq "ports") l
  | JObj _ => false
  end.

(** An entity line 75 passes over. *)
Definition entity_skipped (entity : json) : bool :=
  match entity with
  | JNull | JBool _ | JInt _ | JFloat _ => false
  | JStr s => negb (str_contains "ports" s)
  | JArr l => negb (existsb (str_eq "ports") l)
  | JObj m => match m !! "ports" with
              | Some (JArr _) => false
              | _ => true
              end
  end.

(** The text a port id is stored as and looked up by, if the table takes
    it: none for [null], a list, a dict, or an [int] beyond 64 bits. *)
Definition stored_id (real_to_text : Z → option string) (pid : json)
  : option string :=
  match bind_param pid with
  | Ok v => text_affinity real_to_text v
  | Raise _ => None
  end.


(** Line 110 on a pair, against the last-known state [db] holds for the text
    the sub-resource of the pair is stored under. *)
Definition differs (real_to_text : Z → option string) (db : Database)
    (cn : string) (q : pair_t) : bool :=
  match stored_id real_to_text q.1 with
  | Some t => status_changed (last_status (charger_data db) cn t) q.2
  | None => true
  end.


(** An [int] the [sqlite3] module can bind. *)
Definition int64 (n : Z) : Prop := (- 2 ^ 63 ≤ n < 2 ^ 63)%Z.

(** [db'] is [db] with the rows [new] appended for entity [cn] at time [ts],
    numbered on from the next free id. *)
Definition extends (cn ts : string) (db db' : Database) (new : list Row)
  : Prop :=
  sqlite_master db' = sqlite_master db ∧
  charger_data db' = charger_data db ++ new ∧
  next_rowid db' = (next_rowid db + Z.of_nat (length new))%Z ∧
  Forall (λ r, charger_name r = cn ∧ timestamp r = ts) new ∧
  id <$> new = seqZ (next_rowid db) (Z.of_nat (length new)).

(** A network on which every charger of the fleet fetches pairs of strings
    that name each sub-resource once. *)
Definition serves_text (net : network) : Prop :=
  ∀ cn, cn ∈ CHARGERS →
        ∃ ps, fetch net cn = Ok (text_pair <$> ps) ∧ NoDup ps.*1.

(** The rows of [sqlite_master] that name an object. *)
Definition objects_named (t : objtype) (name : string) (db : Database)
  : list schema_entry :=
  filter (λ e, is_object t name e = true) (sqlite_master db).

Section Polls.

Variable real_to_text : Z → option string.

(** The store after a sequence of polls, each recorded in turn. *)
Definition record_all (polls : list poll) (db : Database) : Database :=
  foldl (λ db c,
           (record real_to_text db (poll_entity c) (poll_time c)
              (text_pair <$> poll_pairs c)).2)
        db polls.

End Polls.

(** ** The store: basic facts *)

Lemma view_Some file db : view file (Some db) = db.
Proof. reflexivity. Qed.

Lemma newest_snoc (l : list Row) (x : Row) :
  newest (l ++ [x]) =
  match newest l with
  | Some b => if (id b <? id x)%Z then Some x else Some b
  | None => Some x
  end.
Proof. unfold newest. by rewrite foldl_app. Qed.

Lemma newest_None (l : list Row) : newest l = None ↔ l = [].
Proof.
  split; [| by intros ->].
  induction l as [| x l _] using rev_ind; [done |].
  rewrite newest_snoc. destruct (newest l); [case_match |]; done.
Qed.

Lemma newest_Some (l : list Row) (r : Row) :
  newest l = Some r → r ∈ l ∧ ∀ r', r' ∈ l → (id r' ≤ id r)%Z.
Proof.
  revert r. induction l as [| x l IH] using rev_ind; [done |].
  intros r. rewrite newest_snoc.
  destruct (newest l) as [b |] eqn:Hb.
  - destruct (IH b eq_refl) as [Hin Hmax].
    destruct (Z.ltb_spec (id b) (id x)); intros [= <-].
    + split; [apply elem_of_app; right; apply list_elem_of_singleton; done |].
      intros r' [Hr' | ->%list_elem_of_singleton]%elem_of_app; [| lia].
      specialize (Hmax r' Hr'). lia.
    + split; [apply elem_of_app; by left |].
      intros r' [Hr' | ->%list_elem_of_singleton]%elem_of_app; [auto | lia].
  - intros [= <-]. apply newest_None in Hb as ->.
    split; [by apply list_elem_of_singleton |].
    intros r' ->%list_elem_of_singleton. lia.
Qed.

Lemma max_rowid_nonneg (l : list Row) : (0 ≤ max_rowid l)%Z.
Proof. unfold max_rowid. induction l as [| x l IH]; simpl; lia. Qed.

Lemma max_rowid_app (l l' : list Row) :
  max_rowid (l ++ l') = Z.max (max_rowid l) (max_rowid l').
Proof.
  induction l as [| x l IH].
  - pose proof (max_rowid_nonneg l'). unfold max_rowid in *. simpl. lia.
  - unfold max_rowid in *. simpl. rewrite IH. lia.
Qed.

Lemma max_rowid_ge (l : list Row) (r : Row) : r ∈ l → (id r ≤ max_rowid l)%Z.
Proof.
  unfold max_rowid. induction l as [| x l IH]; [by intros ?%elem_of_nil |].
  intros [-> | Hin]%elem_of_cons; simpl; [lia |]. specialize (IH Hin). lia.
Qed.

Lemma next_rowid_insert_text cn ts db p :
  next_rowid (insert_text cn ts db p) = (next_rowid db + 1)%Z.
Proof.
  unfold next_rowid at 1. simpl. rewrite max_rowid_app.
  pose proof (max_rowid_nonneg (charger_data db)).
  unfold max_rowid at 2. simpl. unfold next_rowid. lia.
Qed.

Lemma foldl_insert_text_master cn ts ps db :
  sqlite_master (foldl (insert_text cn ts) db ps) = sqlite_master db.
Proof. revert db. induction ps as [| p ps IH]; intros db; [done |]. simpl. by rewrite IH. Qed.

Lemma foldl_insert_text_rows cn ts ps db :
  charger_data (foldl (insert_text cn ts) db ps) =
  charger_data db ++ fresh_rows (next_rowid db) cn ts ps.
Proof.
  revert db. induction ps as [| p ps IH]; intros db; simpl.
  - by rewrite app_nil_r.
  - rewrite IH, next_rowid_insert_text. simpl. by rewrite <- app_assoc.
Qed.


(** ** The Recorder on string pairs *)

Section RecorderFacts.

Variable real_to_text : Z → option string.

Lemma get_last_port_state_text file cn pid :
  table_exists file →
  get_last_port_state real_to_text file cn (JStr pid) =
  Ok (last_status (charger_data file) cn pid).
Proof.
  unfold table_exists, get_last_port_state, select_last, connect, view.
  simpl. by intros ->.
Qed.

Lemma status_changed_text (last : option string) (st : string) :
  status_changed last (JStr st) = bool_decide (last ≠ Some st).
Proof.
  symmetry. destruct last as [s |]; simpl.
  - destruct (String.eqb_spec s st) as [-> | Hne]; simpl.
    + apply bool_decide_eq_false_2. intros H. by apply H.
    + apply bool_decide_eq_true_2. congruence.
  - done.
Qed.

Lemma execute_insert_text file conn cn ts p :
  table_exists (view file conn) →
  execute_insert real_to_text file conn cn ts (JStr p.1) (JStr p.2) =
  Ok (Some (insert_text cn ts (view file conn) p)).
Proof. unfold table_exists, execute_insert. by intros ->. Qed.

Lemma view_after_inserts cn ts file conn sel :
  view file (after_inserts cn ts file conn sel) =
  foldl (insert_text cn ts) (view file conn) sel.
Proof. by destruct sel. Qed.

Lemma after_inserts_app cn ts file conn l1 l2 :
  after_inserts cn ts file conn (l1 ++ l2) =
  after_inserts cn ts file (after_inserts cn ts file conn l1) l2.
Proof.
  destruct l2 as [| q l2]; [by rewrite app_nil_r |].
  destruct l1 as [| q1 l1]; [done |].
  simpl. by rewrite foldl_app.
Qed.

Lemma nonempty_app {A} (l1 l2 : list A) :
  bool_decide (l1 ++ l2 ≠ []) = bool_decide (l1 ≠ []) || bool_decide (l2 ≠ []).
Proof. by destruct l1, l2. Qed.

Lemma table_exists_foldl_insert_text cn ts db sel :
  table_exists db → table_exists (foldl (insert_text cn ts) db sel).
Proof. unfold table_exists, has_object. by rewrite foldl_insert_text_master. Qed.

Lemma table_exists_insert_text cn ts db p :
  table_exists db → table_exists (insert_text cn ts db p).
Proof. done. Qed.

(** The loop on string pairs: which pairs it stores is settled by the file,
    whatever the connection's transaction already holds. *)
Lemma store_loop_text file cn ts ps conn any :
  table_exists file → table_exists (view file conn) →
  store_loop real_to_text file cn ts (text_pair <$> ps) conn any =
  Ok (after_inserts cn ts file conn (filter (changed file cn) ps),
      any || bool_decide (filter (changed file cn) ps ≠ [])).
Proof.
  intros Hfile. revert conn any.
  induction ps as [| p ps IH]; intros conn any Hview; simpl.
  - by rewrite orb_false_r.
  - rewrite get_last_port_state_text by done. simpl.
    rewrite status_changed_text.
    destruct (decide (changed file cn p)) as [Hc | Hc].
    + rewrite bool_decide_eq_true_2 by done.
      rewrite execute_insert_text by done. simpl.
      rewrite IH by by apply table_exists_insert_text.
      rewrite filter_cons_True by done. simpl.
      rewrite orb_true_r. by destruct (filter _ ps).
    + rewrite bool_decide_eq_false_2 by done.
      rewrite IH by done. by rewrite filter_cons_False.
Qed.

Lemma record_text file cn ts ps :
  table_exists file →
  record real_to_text file cn ts (text_pair <$> ps) =
  (Ok (bool_decide (filter (changed file cn) ps ≠ [])),
   foldl (insert_text cn ts) file (filter (changed file cn) ps)).
Proof.
  intros Hfile. unfold record.
  rewrite store_loop_text by done. simpl.
  by destruct (filter _ ps).
Qed.

Lemma record_text_appended file cn ts ps :
  table_exists file →
  appended file (record real_to_text file cn ts (text_pair <$> ps)).2 =
  fresh_rows (next_rowid file) cn ts (filter (changed file cn) ps).
Proof.
  intros Hfile. rewrite record_text by done. simpl.
  unfold appended. rewrite foldl_insert_text_rows. apply drop_app_length.
Qed.

End RecorderFacts.

Lemma filter_none {A} (P : A → Prop) `{!∀ x, Decision (P x)} (l : list A) :
  (∀ x, x ∈ l → ¬ P x) → filter P l = [].
Proof.
  induction l as [| x l IH]; intros Hl; [done |].
  rewrite filter_cons_False by (apply Hl; left).
  apply IH. intros y Hy. apply Hl. by right.
Qed.

Lemma keyed_id_inj (rows : list Row) (r r' : Row) :
  StronglySorted (λ a b, (id a < id b)%Z) rows →
  r ∈ rows → r' ∈ rows → id r = id r' → r = r'.
Proof.
  induction 1 as [| x l _ IH Hx]; [by intros ?%elem_of_nil |].
  rewrite Forall_forall in Hx.
  intros [-> | Hr]%elem_of_cons [-> | Hr']%elem_of_cons Hid; auto.
  - specialize (Hx _ Hr'). lia.
  - specialize (Hx _ Hr). lia.
Qed.

Lemma records_of_elem cn pid rows r :
  r ∈ records_of cn pid rows → r ∈ rows.
Proof. unfold records_of. by intros [_ ?]%list_elem_of_filter. Qed.

Lemma changed_iff_most_recent file cn p :
  keyed file →
  changed file cn p ↔
  records_of cn p.1 (charger_data file) = [] ∨
  ∃ r, most_recent (charger_data file) cn p.1 r ∧ port_status r ≠ p.2.
Proof.
  intros Hkey. unfold changed, last_status.
  destruct (newest (records_of cn p.1 (charger_data file))) as [r0 |] eqn:Hnew;
    simpl.
  - destruct (newest_Some _ _ Hnew) as [Hin Hmax]. split.
    + intros Hne. right. exists r0. split; [by split |]. congruence.
    + intros [Hnil | (r & [Hr Hrmax] & Hst)].
      * rewrite Hnil in Hin. by apply elem_of_nil in Hin.
      * assert (r = r0) as ->; [| congruence].
        apply (keyed_id_inj (charger_data file)); eauto using records_of_elem.
        specialize (Hmax _ Hr). specialize (Hrmax _ Hin). lia.
  - apply newest_None in Hnew. split; [by left | done].
Qed.



(** ** The Recorder on pairs of any values the table takes *)

Section StoredValues.

Variable real_to_text : Z → option string.


Lemma get_last_port_state_stored file cn pid t :
  table_exists file → stored_id real_to_text pid = Some t →
  get_last_port_state real_to_text file cn pid =
  Ok (last_status (charger_data file) cn t).
Proof.
  unfold table_exists, get_last_port_state, select_last, connect, view,
    stored_id.
  cbn [default from_option id]. intros ->. cbn [negb].
  destruct (bind_param pid) as [v |]; [| done]. run_monad. by intros ->.
Qed.








End StoredValues.

Section RecorderClaims.

Variable real_to_text : Z → option string.


(** C7.  On a store whose table exists, a call of the Recorder on string
    pairs returns a boolean, and it is [true] exactly when the call appended
    at least one record. *)
Theorem record_returns_whether_stored file cn ts (ps : list (string * string)) :
  table_exists file →
  ∃ b file',
    record real_to_text file cn ts (text_pair <$> ps) = (Ok b, file') ∧
    charger_data file' = charger_data file ++ appended file file' ∧
    (b = true ↔ appended file file' ≠ []).
Proof.
  intros Hfile. eexists _, _. split; [by apply record_text |].
  unfold appended. rewrite foldl_insert_text_rows, drop_app_length.
  split; [done |]. rewrite bool_decide_eq_true.
  destruct (filter _ ps); simpl; split; congruence.
Qed.


(** C10.  When the loop of a call reaches a pair, after any pairs [pre], the
    connection of the call holds the records inserted for [pre], none of
    them committed; the lookup for the pair returns the last-known state of
    the file as it was when the call began, and the pair is stored exactly
    when it differs from that state, whatever the connection holds. *)
Theorem lookup_reads_committed_rows file cn ts pre p post :
  table_exists file →
  ∃ conn any,
    store_loop real_to_text file cn ts (text_pair <$> pre) connect false =
      Ok (conn, any) ∧
    view file conn =
      foldl (insert_text cn ts) file (filter (changed file cn) pre) ∧
    get_last_port_state real_to_text file cn (JStr p.1) =
      Ok (last_status (charger_data file) cn p.1) ∧
    store_loop real_to_text file cn ts (text_pair <$> (pre ++ p :: post))
      connect false =
      (if decide (changed file cn p)
       then store_loop real_to_text file cn ts (text_pair <$> post)
              (Some (insert_text cn ts (view file conn) p)) true
       else store_loop real_to_text file cn ts (text_pair <$> post) conn any).
Proof.
  intros Hfile. eexists _, _. split; [by apply store_loop_text |].
  split; [apply view_after_inserts |].
  split; [by apply get_last_port_state_text |].
  set (sel := filter (changed file cn) pre).
  assert (table_exists (view file (after_inserts cn ts file connect sel)))
    as Hview.
  { rewrite view_after_inserts. by apply table_exists_foldl_insert_text. }
  rewrite (store_loop_text _ file cn ts (pre ++ p :: post)) by done.
  rewrite filter_app. fold sel.
  destruct (decide (changed file cn p)) as [Hc | Hc].
  - rewrite filter_cons_True by done.
    rewrite store_loop_text; [| done | by apply table_exists_insert_text].
    rewrite nonempty_app, (after_inserts_app _ _ _ _ sel).
    change (p :: ?l) with ([p] ++ l). rewrite after_inserts_app.
    simpl. by rewrite orb_true_r.
  - rewrite filter_cons_False by done.
    rewrite store_loop_text by done.
    by rewrite nonempty_app, after_inserts_app.
Qed.

End RecorderClaims.

(** ** The Fetcher *)

Lemma for_each_app {A} (body : A → Extract.M unit) (l1 l2 : list A) st :
  Extract.for_each (l1 ++ l2) body st =
  match Extract.for_each l1 body st with
  | (st', Ok _) => Extract.for_each l2 body st'
  | (st', Raise e) => (st', Raise e)
  end.
Proof.
  revert st. induction l1 as [| x l1 IH]; intros st; [done |].
  simpl. unfold mbind, Extract.M_bind.
  destruct (body x st) as [st' [[] | e]]; [apply IH | done].
Qed.

Lemma extract_port_dict m st :
  extract_port (JObj m) st = (st ++ [port_pair m], Ok tt).
Proof. done. Qed.

Lemma extract_port_not_dict v st :
  isinstance_dict v = false → extract_port v st = (st, Raise AttributeError).
Proof. by destruct v. Qed.

Lemma extract_ports_dicts (good : list (gmap string json)) st :
  extract_ports (JObj <$> good) st = (st ++ (port_pair <$> good), Ok tt).
Proof.
  revert st. induction good as [| m good IH]; intros st.
  - by rewrite app_nil_r.
  - unfold extract_ports in *. simpl. unfold mbind at 1, Extract.M_bind.
    rewrite extract_port_dict, IH. by rewrite <- app_assoc.
Qed.

(** A port that is no dict stops the loop: the pairs of the ports before it
    stay in [port_data]. *)
Lemma extract_ports_stops good bad rest st :
  isinstance_dict bad = false →
  extract_ports ((JObj <$> good) ++ bad :: rest) st =
  (st ++ (port_pair <$> good), Raise AttributeError).
Proof.
  intros Hbad. unfold extract_ports. rewrite for_each_app.
  fold (extract_ports (JObj <$> good)). rewrite extract_ports_dicts.
  simpl. unfold mbind, Extract.M_bind.
  by rewrite extract_port_not_dict.
Qed.

Lemma contains_dict_Some (m : gmap string json) key x :
  m !! key = Some x → contains key (JObj m) = Ok true.
Proof. intros Hm. unfold contains. by rewrite Hm. Qed.

Lemma contains_dict_None (m : gmap string json) key :
  m !! key = None → contains key (JObj m) = Ok false.
Proof. intros Hm. unfold contains. by rewrite Hm. Qed.

Lemma getitem_dict (m : gmap string json) key x :
  m !! key = Some x → getitem (JObj m) key = Ok x.
Proof. intros Hm. unfold getitem. by rewrite Hm. Qed.

Lemma extract_entity_ports m ports st :
  m !! "ports" = Some (JArr ports) →
  extract_entity (JObj m) st = extract_ports ports st.
Proof.
  intros Hm. unfold extract_entity, has_port_list.
  rewrite (contains_dict_Some _ _ _ Hm), (getitem_dict _ _ _ Hm).
  by run_monad.
Qed.

Lemma extract_body_entities m es :
  m !! "entities" = Some (JArr es) →
  extract_body (JObj m) [] = extract_entities es [].
Proof.
  intros Hm. unfold extract_body, isinstance_dict.
  rewrite (contains_dict_Some _ _ _ Hm), (getitem_dict _ _ _ Hm).
  by run_monad.
Qed.

Lemma extract_port_data_no_entities v :
  no_entities v → extract_port_data v = sentinel.
Proof.
  unfold extract_port_data, extract_body.
  destruct 1 as [v Hv | m Hm | m e Hm He | m Hm].
  - rewrite Hv. by run_monad.
  - unfold isinstance_dict. rewrite (contains_dict_None _ _ Hm). by run_monad.
  - unfold isinstance_dict.
    rewrite (contains_dict_Some _ _ _ Hm), (getitem_dict _ _ _ Hm).
    run_monad. by destruct e.
  - unfold isinstance_dict.
    rewrite (contains_dict_Some _ _ _ Hm), (getitem_dict _ _ _ Hm).
    by run_monad.
Qed.

Lemma extract_port_data_nonempty v : ∃ p l, extract_port_data v = p :: l.
Proof.
  unfold extract_port_data.
  destruct (extract_body v []) as [[| p l] r]; simpl; eauto.
Qed.

(** C3 (as amended).  A response without entities yields the sentinel.
    When a pair-extraction step raises, at a port that is no dict, the
    result holds the pairs extracted before it, from the entities before and
    from the ports before in the same entity; it is the sentinel only when
    there are none. *)
Theorem extract_port_data_sentinel_or_extracted :
  (∀ v, no_entities v → extract_port_data v = sentinel) ∧
  (∀ (m m' : gmap string json) before after
     (good : list (gmap string json)) bad rest pd,
     m !! "entities" = Some (JArr (before ++ JObj m' :: after)) →
     extract_entities before [] = (pd, Ok tt) →
     m' !! "ports" = Some (JArr ((JObj <$> good) ++ bad :: rest)) →
     isinstance_dict bad = false →
     extract_port_data (JObj m) = or_sentinel (pd ++ (port_pair <$> good))).
Proof.
  split; [apply extract_port_data_no_entities |].
  intros m m' before after good bad rest pd Hm Hbefore Hm' Hbad.
  unfold extract_port_data.
  rewrite (extract_body_entities _ _ Hm).
  unfold extract_entities. rewrite for_each_app.
  fold (extract_entities before). rewrite Hbefore.
  cbn [Extract.for_each]. unfold mbind at 1, Extract.M_bind.
  rewrite (extract_entity_ports _ _ _ Hm').
  by rewrite extract_ports_stops.
Qed.

(** C4.  A response that lacks the [entities] key, holds something else than
    a list under it, or holds an empty list, yields exactly the sentinel
    pair. *)
Theorem extract_port_data_fallback v :
  no_entities v → extract_port_data v = [(JStr "unknown", JStr "error")].
Proof. apply extract_port_data_no_entities. Qed.

(** C5 (as amended).  When the GET and [response.json()] raise nothing, or
    raise a [RequestException], the Fetcher returns, and what it returns is
    a list with at least one pair. *)
Theorem fetch_returns_pairs (net : network) (charger_name : string) :
  (∀ e, try_error (net (charger_url charger_name)) = Some e →
        is_request_exception e = true) →
  ∃ p l, fetch net charger_name = Ok (p :: l).
Proof.
  unfold fetch, query_api, requests_get, response_json, charger_url, try_error.
  intros Hreq.
  destruct (net _) as [[code text [v | e]] | e]; run_monad;
    cbn [resp_status_code resp_parsed resp_text] in *.
  - destruct (code =? 200)%Z; cbn [data].
    + destruct (extract_port_data_nonempty v) as (p & l & ->). eauto.
    + destruct (extract_port_data_nonempty (JStr text)) as (p & l & ->). eauto.
  - destruct (code =? 200)%Z.
    + specialize (Hreq e eq_refl). destruct e; try done. cbn [data].
      destruct (extract_port_data_nonempty (JObj {["error" := JStr msg]}))
        as (p & l & ->). eauto.
    + cbn [data].
      destruct (extract_port_data_nonempty (JStr text)) as (p & l & ->). eauto.
  - specialize (Hreq e eq_refl). destruct e; try done. cbn [data].
    destruct (extract_port_data_nonempty (JObj {["error" := JStr msg]}))
      as (p & l & ->). eauto.
Qed.

(** ** Store initialisation *)

Lemma has_object_master t name db db' :
  sqlite_master db' = sqlite_master db →
  has_object t name db' = has_object t name db.
Proof. unfold has_object. by intros ->. Qed.

Lemma has_object_snoc t name ms e rows seq :
  has_object t name (MkDatabase (ms ++ [e]) rows seq) =
  existsb (is_object t name) ms || is_object t name e.
Proof. unfold has_object. simpl. rewrite existsb_app. simpl. by rewrite orb_false_r. Qed.

Lemma objects_named_snoc t name ms e rows seq :
  objects_named t name (MkDatabase (ms ++ [e]) rows seq) =
  filter (λ e, is_object t name e = true) ms ++
  (if is_object t name e then [e] else []).
Proof.
  unfold objects_named. simpl. rewrite filter_app. f_equal.
  destruct (is_object t name e) eqn:He.
  - by rewrite filter_cons_True.
  - rewrite filter_cons_False; [done | congruence].
Qed.

Lemma objects_named_absent t name db :
  has_object t name db = false → objects_named t name db = [].
Proof.
  unfold has_object, objects_named. intros Hex. apply filter_none.
  intros e He Hobj. apply not_true_iff_false in Hex. apply Hex.
  apply existsb_exists. exists e. split; [by apply list_elem_of_In | done].
Qed.

Lemma objects_named_present t name db :
  has_object t name db = true → 1 ≤ length (objects_named t name db).
Proof.
  unfold has_object, objects_named.
  intros (e & He%list_elem_of_In & Hobj)%existsb_exists.
  assert (e ∈ filter (λ e, is_object t name e = true) (sqlite_master db)) as Hin
    by by apply list_elem_of_filter.
  destruct (filter _ _); [by apply elem_of_nil in Hin | simpl; lia].
Qed.

(** What a successful initialisation leaves: the store itself if both
    objects were there, else the store with the missing ones added. *)
Lemma init_database_Ok file file1 :
  init_database file = (Ok tt, file1) →
  has_object Table "charger_data" file1 = true ∧
  has_object Table "idx_charger_name" file1 = false ∧
  has_object Index "idx_charger_name" file1 = true ∧
  (has_object Table "charger_data" file = true →
   objects_named Table "charger_data" file1 =
   objects_named Table "charger_data" file) ∧
  (has_object Table "charger_data" file = false →
   length (objects_named Table "charger_data" file1) = 1) ∧
  (has_object Index "idx_charger_name" file = true →
   objects_named Index "idx_charger_name" file1 =
   objects_named Index "idx_charger_name" file) ∧
  (has_object Index "idx_charger_name" file = false →
   length (objects_named Index "idx_charger_name" file1) = 1).
Proof.
  unfold init_database, create_table.
  destruct (has_object Table "charger_data" file) eqn:Htab.
  - unfold create_index. rewrite Htab. simpl negb. cbv iota.
    destruct (has_object Table "idx_charger_name" file) eqn:Hti; [done |].
    destruct (has_object Index "idx_charger_name" file) eqn:Hidx.
    + intros [= <-]. by rewrite Htab, Hti, Hidx.
    + intros [= <-]. unfold add_object.
      rewrite !has_object_snoc, !objects_named_snoc.
      fold (has_object Table "charger_data" file).
      fold (has_object Table "idx_charger_name" file).
      fold (has_object Index "idx_charger_name" file).
      fold (objects_named Table "charger_data" file).
      fold (objects_named Index "idx_charger_name" file).
      rewrite Htab, Hti, Hidx, (objects_named_absent _ _ _ Hidx).
      repeat split; try done. intros _. by rewrite app_nil_r.
  - destruct (has_object Index "charger_data" file) eqn:Hit; [done |].
    unfold create_index. rewrite !has_object_snoc.
    fold (has_object Table "charger_data" file).
    fold (has_object Table "idx_charger_name" file).
    fold (has_object Index "idx_charger_name" file).
    rewrite Htab. simpl negb. cbv iota.
    change (is_object Table "charger_data"
              (SchemaEntry Table "charger_data" "charger_data")) with true.
    change (is_object Table "idx_charger_name"
              (SchemaEntry Table "charger_data" "charger_data")) with false.
    change (is_object Index "idx_charger_name"
              (SchemaEntry Table "charger_data" "charger_data")) with false.
    simpl orb. cbv iota. rewrite !orb_false_r.
    destruct (has_object Table "idx_charger_name" file) eqn:Hti; [done |].
    destruct (has_object Index "idx_charger_name" file) eqn:Hidx.
    + intros [= <-]. rewrite !has_object_snoc, !objects_named_snoc.
      fold (has_object Table "charger_data" file).
      fold (has_object Table "idx_charger_name" file).
      fold (has_object Index "idx_charger_name" file).
      fold (objects_named Table "charger_data" file).
      fold (objects_named Index "idx_charger_name" file).
      rewrite Htab, Hti, Hidx, (objects_named_absent _ _ _ Htab).
      repeat split; try done. intros _. by rewrite app_nil_r.
    + intros [= <-]. unfold add_object. simpl sqlite_master.
      rewrite !has_object_snoc, !objects_named_snoc.
      rewrite !existsb_app, !filter_app. simpl existsb.
      fold (has_object Table "charger_data" file).
      fold (has_object Table "idx_charger_name" file).
      fold (has_object Index "idx_charger_name" file).
      fold (objects_named Table "charger_data" file).
      fold (objects_named Index "idx_charger_name" file).
      rewrite Htab, Hti, Hidx, (objects_named_absent _ _ _ Htab),
        (objects_named_absent _ _ _ Hidx).
      repeat split; done.
Qed.

(** C9.  Initialisation run on a store it has initialised, with or without
    History Records added since, succeeds and changes nothing; it leaves one
    table and one index where the store had at most one of each. *)
Theorem init_database_idempotent file file1 :
  init_database file = (Ok tt, file1) →
  init_database file1 = (Ok tt, file1) ∧
  (∀ file2, sqlite_master file2 = sqlite_master file1 →
            init_database file2 = (Ok tt, file2)) ∧
  (length (objects_named Table "charger_data" file) ≤ 1 →
   length (objects_named Table "charger_data" file1) = 1) ∧
  (length (objects_named Index "idx_charger_name" file) ≤ 1 →
   length (objects_named Index "idx_charger_name" file1) = 1).
Proof.
  intros (Htab & Hti & Hidx & Ht1 & Ht0 & Hi1 & Hi0)%init_database_Ok.
  assert (∀ file2, sqlite_master file2 = sqlite_master file1 →
                   init_database file2 = (Ok tt, file2)) as Hre.
  { intros file2 Hm. unfold init_database, create_table.
    rewrite (has_object_master _ _ _ _ Hm), Htab. cbv beta iota.
    unfold create_index.
    rewrite !(has_object_master _ _ _ _ Hm). by rewrite Htab, Hti, Hidx. }
  split; [by apply Hre |]. split; [done |]. split.
  - destruct (has_object Table "charger_data" file) eqn:Hb; [| auto].
    intros Hle. rewrite Ht1 by done.
    apply objects_named_present in Hb. lia.
  - destruct (has_object Index "idx_charger_name" file) eqn:Hb; [| auto].
    intros Hle. rewrite Hi1 by done.
    apply objects_named_present in Hb. lia.
Qed.

Lemma NoDup_fst_inj {A B} (l : list (A * B)) (p q : A * B) :
  NoDup l.*1 → p ∈ l → q ∈ l → p.1 = q.1 → p = q.
Proof.
  induction l as [| x l IH]; [by intros _ ?%elem_of_nil |].
  rewrite fmap_cons, NoDup_cons. intros [Hx Hl].
  intros [-> | Hp]%elem_of_cons [-> | Hq]%elem_of_cons Heq; auto.
  - destruct Hx. rewrite Heq. by apply list_elem_of_fmap_2.
  - destruct Hx. rewrite <- Heq. by apply list_elem_of_fmap_2.
Qed.

(** ** A sub-resource named twice in one answer *)

(** C1 (the code departs from the claim).  On the initial store, one call
    whose answer lists port A1 twice with the same status appends two
    records for it: the second lookup still reads the file, which holds
    neither.  The history of the pair then has two adjacent equal values. *)
Theorem store_data_repeated_port_repeats_status (real_to_text : Z → option string) :
  ∃ file',
    store_data real_to_text initial_store "NSP-BRI-01" "2025-01-01T00:00:00"
      (answer_of [port_of "A1" "available"; port_of "A1" "available"]) =
      (Ok true, file') ∧
    history file' "NSP-BRI-01" "A1" = ["available"; "available"] ∧
    ¬ no_adjacent_equal (history file' "NSP-BRI-01" "A1").
Proof.
  eexists. split; [vm_compute; reflexivity |].
  split; [vm_compute; reflexivity |].
  intros Hno. by apply (Hno 0 "available" "available").
Qed.

(** ** Answers that name every sub-resource once *)

Lemma StronglySorted_filter {A} (R : relation A) (P : A → Prop)
    `{!∀ x, Decision (P x)} (l : list A) :
  StronglySorted R l → StronglySorted R (filter P l).
Proof.
  induction 1 as [| a l _ IH Ha]; [constructor |].
  destruct (decide (P a)).
  - rewrite filter_cons_True by done. constructor; [done |].
    rewrite Forall_forall in *. intros x [_ Hx]%list_elem_of_filter. auto.
  - by rewrite filter_cons_False.
Qed.

Lemma order_by_id_sorted (l : list Row) :
  StronglySorted (λ a b, (id a < id b)%Z) l → order_by_id l = l.
Proof.
  induction 1 as [| a l _ IH Ha]; [done |].
  unfold order_by_id in *. simpl. rewrite IH.
  destruct l as [| x l]; [done |]. simpl.
  apply Forall_cons in Ha as [Hax _].
  destruct (Z.leb_spec (id a) (id x)); [done | lia].
Qed.

Lemma newest_sorted (l : list Row) :
  StronglySorted (λ a b, (id a < id b)%Z) l → newest l = last l.
Proof.
  induction l as [| x l IH] using rev_ind; [done |].
  intros Hs. rewrite newest_snoc, last_snoc.
  destruct (newest l) as [b |] eqn:Hb; [| done].
  apply newest_Some in Hb as [Hb _].
  assert (x ∈ [x]) as Hx by by apply list_elem_of_singleton.
  pose proof (StronglySorted_app_1_elem_of _ l [x] b x Hs Hb Hx) as Hlt.
  simpl in Hlt.
  destruct (Z.ltb_spec (id b) (id x)); [done | lia].
Qed.

Lemma history_keyed db cn pid :
  keyed db →
  history db cn pid = port_status <$> records_of cn pid (charger_data db).
Proof.
  intros Hkey. unfold history. rewrite order_by_id_sorted; [done |].
  by apply StronglySorted_filter.
Qed.

Lemma last_status_keyed db cn pid :
  keyed db →
  last_status (charger_data db) cn pid =
  last (port_status <$> records_of cn pid (charger_data db)).
Proof.
  intros Hkey. unfold last_status. rewrite newest_sorted.
  - by rewrite fmap_last.
  - by apply StronglySorted_filter.
Qed.

Lemma no_adjacent_equal_snoc (l : list string) (x : string) :
  no_adjacent_equal l → last l ≠ Some x → no_adjacent_equal (l ++ [x]).
Proof.
  intros Hl Hlast i a b Ha Hb.
  destruct (decide (S i < length l)) as [Hlt | Hge].
  - rewrite lookup_app_l in Ha by lia. rewrite lookup_app_l in Hb by lia. eauto.
  - assert (S i = length l) as Hi.
    { apply lookup_lt_Some in Hb. rewrite length_app in Hb. simpl in Hb. lia. }
    rewrite lookup_app_l in Ha by lia. rewrite lookup_app_r in Hb by lia.
    rewrite Hi, Nat.sub_diag in Hb. injection Hb as <-.
    rewrite last_lookup in Hlast. rewrite <- Hi in Hlast. simpl in Hlast.
    congruence.
Qed.

Lemma fresh_rows_id_ge next cn ts sel r :
  r ∈ fresh_rows next cn ts sel → (next ≤ id r)%Z.
Proof.
  revert next. induction sel as [| q sel IH]; intros next; simpl.
  - by intros ?%elem_of_nil.
  - intros [-> | Hr]%elem_of_cons; simpl; [lia |]. apply IH in Hr. lia.
Qed.

Lemma fresh_rows_sorted next cn ts sel :
  StronglySorted (λ a b, (id a < id b)%Z) (fresh_rows next cn ts sel).
Proof.
  revert next. induction sel as [| q sel IH]; intros next; simpl.
  - constructor.
  - constructor; [apply IH |]. apply Forall_forall.
    intros r Hr%fresh_rows_id_ge. simpl. lia.
Qed.

Lemma keyed_foldl_insert_text cn ts db sel :
  keyed db → keyed (foldl (insert_text cn ts) db sel).
Proof.
  unfold keyed. intros Hkey. rewrite foldl_insert_text_rows.
  apply StronglySorted_app_2; [| done | apply fresh_rows_sorted].
  intros x1 x2 Hx1%max_rowid_ge Hx2%fresh_rows_id_ge.
  unfold next_rowid in Hx2. lia.
Qed.

(** The statuses the fresh records add to the history of a pair. *)
Lemma fresh_rows_statuses next cn ts sel cn' pid :
  port_status <$> records_of cn' pid (fresh_rows next cn ts sel) =
  if decide (cn = cn') then (filter (λ q, q.1 = pid) sel).*2 else [].
Proof.
  revert next. induction sel as [| q sel IH]; intros next.
  - by destruct (decide _).
  - specialize (IH (next + 1)%Z). cbn [fresh_rows].
    unfold records_of in *.
    destruct (decide (cn = cn')) as [<- | Hcn].
    + destruct (decide (q.1 = pid)) as [Hq | Hq].
      * rewrite filter_cons_True by done.
        rewrite (filter_cons_True _ q) by done.
        rewrite !fmap_cons. by rewrite IH.
      * rewrite filter_cons_False by (simpl; tauto).
        by rewrite (filter_cons_False _ q).
    + rewrite filter_cons_False by (simpl; tauto). done.
Qed.

Lemma filter_fst_NoDup {A B} `{!EqDecision A} (l : list (A * B)) (a : A) :
  NoDup l.*1 →
  filter (λ q, q.1 = a) l = [] ∨
  ∃ q, filter (λ q, q.1 = a) l = [q] ∧ q ∈ l ∧ q.1 = a.
Proof.
  induction l as [| x l IH]; [by left |].
  rewrite fmap_cons, NoDup_cons. intros [Hx Hl].
  destruct (decide (x.1 = a)) as [Hxa | Hxa].
  - right. exists x. rewrite filter_cons_True by done.
    split; [| split; [left | done]].
    f_equal. apply filter_none. intros q Hq Hqa. apply Hx.
    rewrite Hxa, <- Hqa. by apply list_elem_of_fmap_2.
  - rewrite filter_cons_False by done.
    destruct (IH Hl) as [-> | (q & -> & Hq & Hqa)]; [by left |].
    right. exists q. split; [done | split; [by right | done]].
Qed.

Section Transitions.

Variable real_to_text : Z → option string.

Lemma transitions_only_record db cn ts (ps : list (string * string)) :
  NoDup ps.*1 → transitions_only db →
  transitions_only (record real_to_text db cn ts (text_pair <$> ps)).2.
Proof.
  intros Hnd (Htab & Hkey & Hruns). rewrite record_text by done. simpl.
  split; [by apply table_exists_foldl_insert_text |].
  split; [by apply keyed_foldl_insert_text |].
  intros cn' pid. rewrite foldl_insert_text_rows.
  unfold records_of. rewrite filter_app, fmap_app.
  fold (records_of cn' pid (charger_data db)).
  fold (records_of cn' pid
          (fresh_rows (next_rowid db) cn ts (filter (changed db cn) ps))).
  rewrite fresh_rows_statuses.
  destruct (decide (cn = cn')) as [<- | _]; [| by rewrite app_nil_r].
  assert (NoDup (filter (changed db cn) ps).*1) as Hnd'.
  { eapply sublist_NoDup; [done |]. apply fmap_sublist, sublist_filter. }
  destruct (filter_fst_NoDup _ pid Hnd') as [-> | (q & -> & Hq & <-)].
  - by rewrite app_nil_r.
  - apply list_elem_of_filter in Hq as [Hc _]. simpl.
    apply no_adjacent_equal_snoc; [done |].
    by rewrite <- last_status_keyed.
Qed.

Lemma transitions_only_record_all polls db :
  Forall (λ c, NoDup (poll_pairs c).*1) polls →
  transitions_only db → transitions_only (record_all real_to_text polls db).
Proof.
  intros Hpolls. revert db.
  induction Hpolls as [| c polls Hc _ IH]; intros db Hdb; [done |].
  simpl. by apply IH, transitions_only_record.
Qed.

(** The no-duplicate-run invariant, for answers that name every
    sub-resource once: after any sequence of such polls from the initial
    store, no pair has two adjacent equal statuses in its history. *)
Lemma no_duplicate_run_distinct_ports polls cn pid :
  Forall (λ c, NoDup (poll_pairs c).*1) polls →
  no_adjacent_equal (history (record_all real_to_text polls initial_store) cn pid).
Proof.
  intros Hpolls.
  destruct (transitions_only_record_all polls initial_store Hpolls)
    as (_ & Hkey & Hruns).
  - split; [done |]. split; [constructor |].
    intros cn' pid' i a b Ha.
    change (charger_data initial_store) with (@nil Row) in Ha.
    unfold records_of in Ha. by rewrite filter_nil, fmap_nil, lookup_nil in Ha.
  - by rewrite history_keyed.
Qed.

End Transitions.

(** ** The statements at concrete inputs *)



Lemma record_returns_whether_stored_witness :
  table_exists one_record_store ∧
  ∃ b file',
    record (λ _, None) one_record_store "NSP-BRI-01" "2025-01-01T00:01:57"
      (text_pair <$> [("A1", "charging")]) = (Ok b, file') ∧
    (b = true ↔ appended one_record_store file' ≠ []).
Proof.
  assert (table_exists one_record_store) as Htab by reflexivity.
  split; [done |].
  destruct (record_returns_whether_stored (λ _, None) one_record_store
              "NSP-BRI-01" "2025-01-01T00:01:57" [("A1", "charging")] Htab)
    as (b & file' & Hrec & _ & Hiff).
  by exists b, file'.
Defined.


Lemma lookup_reads_committed_rows_witness :
  table_exists initial_store ∧
  ∃ conn any,
    store_loop (λ _, None) initial_store "NSP-BRI-01" "2025-01-01T00:00:00"
      (text_pair <$> [("A1", "available")]) connect false = Ok (conn, any) ∧
    last_status (charger_data (view initial_store conn)) "NSP-BRI-01" "A1" =
      Some "available" ∧
    get_last_port_state (λ _, None) initial_store "NSP-BRI-01" (JStr "A1") =
      Ok None.
Proof.
  split; [reflexivity |].
  destruct (lookup_reads_committed_rows (λ _, None) initial_store
              "NSP-BRI-01" "2025-01-01T00:00:00"
              [("A1", "available")] ("A1", "available") [])
    as (conn & any & Hloop & Hview & Hget & _); [reflexivity |].
  exists conn, any. split; [exact Hloop |]. split; [| exact Hget].
  rewrite Hview. reflexivity.
Defined.

(** C6 (the claim as stated fails).  Two calls share the pair (A1,
    charging), which differs from the stored state, and differ in the
    sibling A2 only.  With a string status for A2 the call stores A1; with
    [null] for A2 it raises before it commits, and A1 is not stored. *)
Lemma null_sibling_suppresses_store :
  record (λ _, None) one_record_store "NSP-BRI-01" "2025-01-01T00:01:57"
    [(JStr "A1", JStr "charging"); (JStr "A2", JStr "available")] =
    (Ok true,
     MkDatabase (sqlite_master one_record_store)
       [MkRow 1 "NSP-BRI-01" "2025-01-01T00:00:00" "A1" "available";
        MkRow 2 "NSP-BRI-01" "2025-01-01T00:01:57" "A1" "charging";
        MkRow 3 "NSP-BRI-01" "2025-01-01T00:01:57" "A2" "available"] 3) ∧
  record (λ _, None) one_record_store "NSP-BRI-01" "2025-01-01T00:01:57"
    [(JStr "A1", JStr "charging"); (JStr "A2", JNull)] =
    (Raise IntegrityError, one_record_store).
Proof. split; vm_compute; reflexivity. Qed.

Lemma init_database_idempotent_witness :
  init_database empty_db = (Ok tt, initial_store) ∧
  init_database initial_store = (Ok tt, initial_store) ∧
  init_database one_record_store = (Ok tt, one_record_store) ∧
  length (objects_named Table "charger_data" initial_store) = 1 ∧
  length (objects_named Index "idx_charger_name" initial_store) = 1.
Proof.
  assert (init_database empty_db = (Ok tt, initial_store)) as Hinit
    by reflexivity.
  destruct (init_database_idempotent empty_db initial_store Hinit)
    as (Htwice & Hlater & Htab & Hidx).
  split; [exact Hinit |]. split; [exact Htwice |].
  split; [apply Hlater; reflexivity |].
  split; [apply Htab | apply Hidx]; vm_compute; lia.
Defined.

Lemma fetch_returns_pairs_witness :
  let net : network :=
    λ _, Ok (Response 200 "<html>"
               (Raise (RequestException "Expecting value"))) in
  ∃ p l, fetch net "NSP-BRI-01" = Ok (p :: l).
Proof.
  cbv zeta. apply fetch_returns_pairs.
  intros e [= <-]. reflexivity.
Defined.

(** C5 (the claim as stated fails).  A 200 answer whose body is nested too
    deep makes [response.json()] raise [RecursionError], which line 59 does
    not catch: the exception reaches the caller. *)
Lemma fetch_propagates_recursion_error :
  let net : network :=
    λ _, Ok (Response 200 "[[[[[[[[" (Raise RecursionError)) in
  query_api net "NSP-BRI-01" = Raise RecursionError ∧
  fetch net "NSP-BRI-01" = Raise RecursionError.
Proof. split; reflexivity. Qed.

Lemma extract_port_data_fallback_witness :
  no_entities (JObj {["error" := JStr "timed out"]}) ∧
  extract_port_data (JObj {["error" := JStr "timed out"]}) =
    [(JStr "unknown", JStr "error")].
Proof.
  assert (no_entities (JObj {["error" := JStr "timed out"]})) as Hno.
  { apply missing_key. vm_compute. reflexivity. }
  split; [exact Hno |]. exact (extract_port_data_fallback _ Hno).
Defined.

(** C3 (the claim as stated fails).  A port that is no dict makes the second
    pair-extraction step raise; the result is the pair extracted before it,
    not the sentinel. *)
Lemma extract_port_data_partial_list :
  (extract_body (answer_of [port_of "A1" "available"; JInt 0]) []).2 =
    Raise AttributeError ∧
  extract_port_data (answer_of [port_of "A1" "available"; JInt 0]) =
    [(JStr "A1", JStr "available")] ∧
  extract_port_data (answer_of [port_of "A1" "available"; JInt 0]) ≠
    [(JStr "unknown", JStr "error")].
Proof.
  split; [vm_compute; reflexivity |].
  split; [vm_compute; reflexivity |].
  vm_compute. discriminate.
Qed.

Lemma extract_port_data_sentinel_or_extracted_witness :
  extract_port_data
    (JObj {["entities" :=
              JArr [JObj {["ports" := JArr [port_of "A1" "available"]]};
                    JObj {["ports" :=
                             JArr [port_of "B1" "charging"; JNull;
                                   port_of "B2" "available"]]};
                    JObj {["ports" := JArr [port_of "C1" "available"]]}]]}) =
  [(JStr "A1", JStr "available"); (JStr "B1", JStr "charging")].
Proof.
  rewrite (proj2 extract_port_data_sentinel_or_extracted
             {["entities" :=
                 JArr [JObj {["ports" := JArr [port_of "A1" "available"]]};
                       JObj {["ports" :=
                                JArr [port_of "B1" "charging"; JNull;
                                      port_of "B2" "available"]]};
                       JObj {["ports" := JArr [port_of "C1" "available"]]}]]}
             {["ports" :=
                 JArr [port_of "B1" "charging"; JNull;
                       port_of "B2" "available"]]}
             [JObj {["ports" := JArr [port_of "A1" "available"]]}]
             [JObj {["ports" := JArr [port_of "C1" "available"]]}]
             [<["portId" := JStr "B1"]> {["status" := JStr "charging"]}]
             JNull
             [port_of "B2" "available"]
             [(JStr "A1", JStr "available")]).
  - vm_compute. reflexivity.
  - vm_compute. reflexivity.
  - vm_compute. reflexivity.
  - vm_compute. reflexivity.
  - reflexivity.
Defined.

(** ** Worked examples *)

(** The scenario of the specification: a first poll stores, an unchanged
    second poll does not, a changed third poll stores, and a transport
    failure stores the sentinel pair. *)
Example poll_scenario (real_to_text : Z → option string) :
  let poll net db ts := poll_once real_to_text net db "NSP-BRI-01" ts in
  let s1 := MkDatabase (sqlite_master initial_store)
              [MkRow 1 "NSP-BRI-01" "t1" "A1" "available"] 1 in
  let s3 := MkDatabase (sqlite_master initial_store)
              [MkRow 1 "NSP-BRI-01" "t1" "A1" "available";
               MkRow 2 "NSP-BRI-01" "t3" "A1" "charging"] 2 in
  let s4 := MkDatabase (sqlite_master initial_store)
              [MkRow 1 "NSP-BRI-01" "t1" "A1" "available";
               MkRow 2 "NSP-BRI-01" "t3" "A1" "charging";
               MkRow 3 "NSP-BRI-01" "t4" "unknown" "error"] 3 in
  poll (answering (answer_of [port_of "A1" "available"])) initial_store "t1" =
    (Ok true, s1) ∧
  poll (answering (answer_of [port_of "A1" "available"])) s1 "t2" =
    (Ok false, s1) ∧
  poll (answering (answer_of [port_of "A1" "charging"])) s1 "t3" =
    (Ok true, s3) ∧
  poll timing_out s3 "t4" = (Ok true, s4).
Proof. repeat split; vm_compute; reflexivity. Qed.

(** Status values compare as exact strings: another case is another
    status. *)
Example status_is_case_sensitive (real_to_text : Z → option string) :
  record real_to_text one_record_store "NSP-BRI-01" "t2"
    (text_pair <$> [("A1", "Available")]) =
  (Ok true,
   MkDatabase (sqlite_master initial_store)
     [MkRow 1 "NSP-BRI-01" "2025-01-01T00:00:00" "A1" "available";
      MkRow 2 "NSP-BRI-01" "t2" "A1" "Available"] 2).
Proof. vm_compute. reflexivity. Qed.

(** A port whose status is [null] makes the INSERT fail; the call raises
    before it commits, and the record of the port before it is lost. *)
Example null_status_raises (real_to_text : Z → option string) :
  store_data real_to_text initial_store "NSP-BRI-01" "t1"
    (answer_of [port_of "A1" "available";
                JObj (<["portId" := JStr "A2"]> {["status" := JNull]})]) =
  (Raise IntegrityError, initial_store).
Proof. vm_compute. reflexivity. Qed.

(** A status that is a number is stored as its text and never equals it:
    every poll stores it again. *)
Example numeric_status_always_stored (real_to_text : Z → option string) :
  let answer :=
    answer_of [JObj (<["portId" := JStr "A1"]> {["status" := JInt 1]})] in
  let s1 := (store_data real_to_text initial_store "NSP-BRI-01" "t1" answer).2 in
  store_data real_to_text s1 "NSP-BRI-01" "t2" answer =
  (Ok true,
   MkDatabase (sqlite_master initial_store)
     [MkRow 1 "NSP-BRI-01" "t1" "A1" "1";
      MkRow 2 "NSP-BRI-01" "t2" "A1" "1"] 2).
Proof. vm_compute. reflexivity. Qed.

(** ** More of the Fetcher *)

Lemma extract_ports_all_dicts ports st :
  Forall (λ p, isinstance_dict p = true) ports →
  extract_ports ports st = (st ++ omap dict_pair ports, Ok tt).
Proof.
  intros Hall. revert st.
  induction Hall as [| p ports Hp _ IH]; intros st.
  - by rewrite app_nil_r.
  - destruct p as [| | | | | | m]; try done.
    unfold extract_ports in *. cbn [Extract.for_each omap list_omap dict_pair].
    unfold mbind at 1, Extract.M_bind.
    rewrite extract_port_dict, IH. by rewrite <- app_assoc.
Qed.

Lemma extract_entity_dict (m : gmap string json) st :
  Forall (λ p, isinstance_dict p = true) (entity_ports m) →
  extract_entity (JObj m) st = (st ++ omap dict_pair (entity_ports m), Ok tt).
Proof.
  unfold entity_ports. intros Hall.
  destruct (m !! "ports") as [v |] eqn:Hm.
  - destruct v as [| | | | | l |];
      try (unfold extract_entity, has_port_list;
           rewrite (contains_dict_Some _ _ _ Hm), (getitem_dict _ _ _ Hm);
           run_monad; by rewrite app_nil_r).
    rewrite (extract_entity_ports _ _ _ Hm). by apply extract_ports_all_dicts.
  - unfold extract_entity, has_port_list.
    rewrite (contains_dict_None _ _ Hm). run_monad. by rewrite app_nil_r.
Qed.

Lemma extract_entities_dicts (es : list (gmap string json)) st :
  Forall (λ e, Forall (λ p, isinstance_dict p = true) (entity_ports e)) es →
  extract_entities (JObj <$> es) st =
  (st ++ (es ≫= λ e, omap dict_pair (entity_ports e)), Ok tt).
Proof.
  intros Hall. revert st.
  induction Hall as [| e es He _ IH]; intros st.
  - by rewrite app_nil_r.
  - unfold extract_entities in *. rewrite fmap_cons. cbn [Extract.for_each].
    unfold mbind at 1, Extract.M_bind.
    rewrite extract_entity_dict by done. rewrite IH, bind_cons.
    by rewrite <- app_assoc.
Qed.

(** X1.  An answer whose entities are dicts and whose ports are dicts yields
    the pairs of all ports, entity by entity and port by port, a missing
    [portId] or [status] read as ["unknown"]; entities without a list under
    [ports] add nothing, and the sentinel stands in for an empty result. *)
Theorem extract_port_data_well_formed
    (m : gmap string json) (es : list (gmap string json)) :
  m !! "entities" = Some (JArr (JObj <$> es)) →
  Forall (λ e, Forall (λ p, isinstance_dict p = true) (entity_ports e)) es →
  extract_port_data (JObj m) =
  or_sentinel (es ≫= λ e, omap dict_pair (entity_ports e)).
Proof.
  intros Hm Hall. unfold extract_port_data.
  rewrite (extract_body_entities _ _ Hm).
  by rewrite extract_entities_dicts.
Qed.

Lemma extract_port_data_well_formed_witness :
  extract_port_data
    (JObj {["entities" :=
              JArr [JObj {["ports" := JArr [port_of "A1" "available";
                                            JObj {["portId" := JStr "A2"]}]]};
                    JObj {["name" := JStr "NSP-BRI-01"]};
                    JObj {["ports" := JArr [port_of "B1" "charging"]]}]]}) =
  [(JStr "A1", JStr "available"); (JStr "A2", JStr "unknown");
   (JStr "B1", JStr "charging")].
Proof.
  rewrite (extract_port_data_well_formed
             {["entities" :=
                 JArr [JObj {["ports" := JArr [port_of "A1" "available";
                                               JObj {["portId" := JStr "A2"]}]]};
                       JObj {["name" := JStr "NSP-BRI-01"]};
                       JObj {["ports" := JArr [port_of "B1" "charging"]]}]]}
             [{["ports" := JArr [port_of "A1" "available";
                                 JObj {["portId" := JStr "A2"]}]]};
              {["name" := JStr "NSP-BRI-01"]};
              {["ports" := JArr [port_of "B1" "charging"]]}]).
  - vm_compute. reflexivity.
  - vm_compute. reflexivity.
  - refine (bool_decide_unpack _ _). vm_compute. exact I.
Defined.

Lemma extract_entity_raises entity st :
  entity_raises entity = true →
  extract_entity entity st = (st, Raise TypeError).
Proof.
  unfold extract_entity, has_port_list.
  destruct entity as [| b | n | f | s | l | m]; try done.
  - intros Hs. unfold contains. cbn [entity_raises] in Hs. rewrite Hs. done.
  - intros Hl. unfold contains. cbn [entity_raises] in Hl. rewrite Hl. done.
Qed.

(** X2.  An entity that is [null], a boolean or a number, a string in which
    "ports" occurs, or a list that holds "ports", makes line 75 raise: the
    extraction ends there, with the pairs of the entities before it and
    none of those after. *)
Theorem extract_port_data_stops_at_entity
    (m : gmap string json) before bad after pd :
  m !! "entities" = Some (JArr (before ++ bad :: after)) →
  extract_entities before [] = (pd, Ok tt) →
  entity_raises bad = true →
  extract_port_data (JObj m) = or_sentinel pd.
Proof.
  intros Hm Hbefore Hbad. unfold extract_port_data.
  rewrite (extract_body_entities _ _ Hm).
  unfold extract_entities. rewrite for_each_app.
  fold (extract_entities before). rewrite Hbefore.
  cbn [Extract.for_each]. unfold mbind at 1, Extract.M_bind.
  by rewrite extract_entity_raises.
Qed.

Lemma extract_port_data_stops_at_entity_witness :
  extract_port_data
    (JObj {["entities" :=
              JArr [JObj {["ports" := JArr [port_of "A1" "available"]]};
                    JStr "no ports here";
                    JObj {["ports" := JArr [port_of "B1" "charging"]]}]]}) =
  [(JStr "A1", JStr "available")].
Proof.
  rewrite (extract_port_data_stops_at_entity
             {["entities" :=
                 JArr [JObj {["ports" := JArr [port_of "A1" "available"]]};
                       JStr "no ports here";
                       JObj {["ports" := JArr [port_of "B1" "charging"]]}]]}
             [JObj {["ports" := JArr [port_of "A1" "available"]]}]
             (JStr "no ports here")
             [JObj {["ports" := JArr [port_of "B1" "charging"]]}]
             [(JStr "A1", JStr "available")]).
  - reflexivity.
  - vm_compute. reflexivity.
  - vm_compute. reflexivity.
  - vm_compute. reflexivity.
Defined.

Lemma extract_entity_skipped entity st :
  entity_skipped entity = true → extract_entity entity st = (st, Ok tt).
Proof.
  unfold extract_entity, has_port_list.
  destruct entity as [| b | n | f | s | l | m]; try done.
  - intros Hs%negb_true_iff. unfold contains. rewrite Hs. done.
  - intros Hl%negb_true_iff. unfold contains. rewrite Hl. done.
  - cbn [entity_skipped]. destruct (m !! "ports") as [v |] eqn:Hm.
    + rewrite (contains_dict_Some _ _ _ Hm), (getitem_dict _ _ _ Hm).
      by destruct v.
    + by rewrite (contains_dict_None _ _ Hm).
Qed.

(** X3.  An entity that is a dict without a list under [ports], a string in
    which "ports" does not occur, or a list that does not hold "ports", is
    passed over: the result is that of the answer without it. *)
Theorem extract_port_data_skips_entity
    (m1 m2 : gmap string json) before e after :
  m1 !! "entities" = Some (JArr (before ++ e :: after)) →
  m2 !! "entities" = Some (JArr (before ++ after)) →
  entity_skipped e = true →
  extract_port_data (JObj m1) = extract_port_data (JObj m2).
Proof.
  intros Hm1 Hm2 He. unfold extract_port_data.
  rewrite (extract_body_entities _ _ Hm1), (extract_body_entities _ _ Hm2).
  unfold extract_entities. rewrite !for_each_app.
  destruct (Extract.for_each before extract_entity []) as [st [[] | e']];
    [| done].
  cbn [Extract.for_each]. unfold mbind at 1, Extract.M_bind.
  by rewrite extract_entity_skipped.
Qed.

Lemma extract_port_data_skips_entity_witness :
  extract_port_data
    (JObj {["entities" :=
              JArr [JObj {["ports" := JArr [port_of "A1" "available"]]};
                    JObj {["ports" := JStr "none"]};
                    JObj {["ports" := JArr [port_of "B1" "charging"]]}]]}) =
  extract_port_data
    (JObj {["entities" :=
              JArr [JObj {["ports" := JArr [port_of "A1" "available"]]};
                    JObj {["ports" := JArr [port_of "B1" "charging"]]}]]}).
Proof.
  apply (extract_port_data_skips_entity _ _
           [JObj {["ports" := JArr [port_of "A1" "available"]]}]
           (JObj {["ports" := JStr "none"]})
           [JObj {["ports" := JArr [port_of "B1" "charging"]]}]).
  - vm_compute. reflexivity.
  - vm_compute. reflexivity.
  - vm_compute. reflexivity.
Defined.

(** X4.  When the GET for a charger raises a [RequestException], answers
    with a status other than 200, or answers 200 with a body on which
    [response.json()] raises requests' [JSONDecodeError], itself a
    [RequestException], the Fetcher returns exactly the sentinel pair. *)
Theorem fetch_no_answer_is_sentinel (net : network) (charger_name : string) :
  no_answer (net (charger_url charger_name)) →
  fetch net charger_name = Ok [(JStr "unknown", JStr "error")].
Proof.
  unfold fetch, query_api, requests_get, response_json, charger_url.
  assert (∀ msg, extract_port_data (JObj {["error" := JStr msg]}) = sentinel)
    as Herr.
  { intros msg. apply extract_port_data_no_entities, missing_key.
    by apply lookup_singleton_ne. }
  assert (∀ text, extract_port_data (JStr text) = sentinel) as Htext.
  { intros text. by apply extract_port_data_no_entities, not_a_dict. }
  destruct 1 as [msg | r Hcode | r msg Hbody]; run_monad.
  - cbn [data]. by rewrite Herr.
  - apply Z.eqb_neq in Hcode. rewrite Hcode. cbn [data]. by rewrite Htext.
  - rewrite Hbody. destruct (resp_status_code r =? 200)%Z; cbn [data].
    + by rewrite Herr.
    + by rewrite Htext.
Qed.

Lemma fetch_no_answer_is_sentinel_witness :
  no_answer (timing_out (charger_url "NSP-BRI-01")) ∧
  fetch timing_out "NSP-BRI-01" = Ok [(JStr "unknown", JStr "error")].
Proof.
  assert (no_answer (timing_out (charger_url "NSP-BRI-01"))) as Hno
    by apply get_raised.
  split; [exact Hno |]. exact (fetch_no_answer_is_sentinel _ _ Hno).
Defined.

(** ** The Recorder on any answer *)

Lemma extends_refl cn ts db : extends cn ts db db [].
Proof.
  repeat split; simpl; [by rewrite app_nil_r | lia | constructor].
Qed.

Lemma extends_insert_text cn ts db p :
  extends cn ts db (insert_text cn ts db p)
    [MkRow (next_rowid db) cn ts p.1 p.2].
Proof.
  repeat split; simpl; [apply next_rowid_insert_text | by repeat constructor].
Qed.

Lemma extends_trans cn ts db db1 db2 new1 new2 :
  extends cn ts db db1 new1 → extends cn ts db1 db2 new2 →
  extends cn ts db db2 (new1 ++ new2).
Proof.
  intros (Hm1 & Hr1 & Hn1 & Hf1 & Hi1) (Hm2 & Hr2 & Hn2 & Hf2 & Hi2).
  repeat split.
  - congruence.
  - by rewrite Hr2, Hr1, app_assoc.
  - rewrite Hn2, Hn1, length_app. lia.
  - by apply Forall_app.
  - rewrite fmap_app, Hi1, Hi2, Hn1, length_app, Nat2Z.inj_add.
    rewrite seqZ_app by lia. done.
Qed.

Lemma extends_ids_above cn ts db db' new old r :
  extends cn ts db db' new → old ∈ charger_data db → r ∈ new →
  (id old < id r)%Z.
Proof.
  intros (_ & _ & _ & _ & Hids) Hold%max_rowid_ge Hr.
  assert (id r ∈ seqZ (next_rowid db) (Z.of_nat (length new))) as Hin.
  { rewrite <- Hids. by apply list_elem_of_fmap_2. }
  apply elem_of_seqZ in Hin. unfold next_rowid in Hin. lia.
Qed.

Lemma seqZ_ids_sorted (new : list Row) (a : Z) :
  id <$> new = seqZ a (Z.of_nat (length new)) →
  StronglySorted (λ r r', (id r < id r')%Z) new.
Proof.
  revert a. induction new as [| r new IH]; intros a Hids; [constructor |].
  rewrite fmap_cons in Hids. cbn [length] in Hids.
  rewrite seqZ_cons in Hids by lia.
  injection Hids as Hr Hnew.
  replace (Z.pred (Z.of_nat (S (length new)))) with (Z.of_nat (length new))
    in Hnew by lia.
  constructor; [by eapply IH |].
  apply Forall_forall. intros r' Hr'.
  assert (id r' ∈ seqZ (Z.succ a) (Z.of_nat (length new))) as Hin.
  { rewrite <- Hnew. by apply list_elem_of_fmap_2. }
  apply elem_of_seqZ in Hin. lia.
Qed.

Lemma extends_keyed cn ts db db' new :
  extends cn ts db db' new → keyed db → keyed db'.
Proof.
  intros Hext Hkey. pose proof Hext as (_ & Hrows & _ & _ & Hids).
  unfold keyed. rewrite Hrows.
  apply StronglySorted_app_2; [| done | by eapply seqZ_ids_sorted].
  intros old r. by eapply extends_ids_above.
Qed.

Section AnyAnswer.

Variable real_to_text : Z → option string.

Lemma execute_insert_Ok file conn cn ts pid st conn' :
  execute_insert real_to_text file conn cn ts pid st = Ok conn' →
  ∃ p, conn' = Some (insert_text cn ts (view file conn) p).
Proof.
  unfold execute_insert.
  destruct (has_object Table "charger_data" (view file conn)); [| done].
  cbn [negb]. destruct (bind_param pid) as [p |]; [| done].
  destruct (bind_param st) as [s |]; [| done]. run_monad.
  destruct (text_affinity real_to_text p) as [p' |]; [| done].
  destruct (text_affinity real_to_text s) as [s' |]; [| done].
  intros [= <-]. by exists (p', s').
Qed.

(** What the loop leaves on its connection when it runs to its end. *)
Lemma store_loop_extends file cn ts port_data conn any conn' any' :
  store_loop real_to_text file cn ts port_data conn any = Ok (conn', any') →
  ∃ new,
    extends cn ts (view file conn) (view file conn') new ∧
    any' = any || bool_decide (new ≠ []) ∧
    (new = [] → conn' = conn).
Proof.
  revert conn any.
  induction port_data as [| [pid st] rest IH]; intros conn any; cbn [store_loop].
  - intros [= <- <-]. exists []. split; [apply extends_refl |].
    by rewrite orb_false_r.
  - destruct (get_last_port_state real_to_text file cn pid) as [last |];
      [| done].
    run_monad. destruct (status_changed last st).
    + destruct (execute_insert real_to_text file conn cn ts pid st)
        as [conn1 |] eqn:Hins; [| done].
      apply execute_insert_Ok in Hins as [p ->].
      intros (new & Hext & -> & _)%IH.
      exists (MkRow (next_rowid (view file conn)) cn ts p.1 p.2 :: new).
      split; [| by rewrite orb_true_r].
      eapply (extends_trans cn ts _ _ _ [_] new); [| exact Hext].
      apply extends_insert_text.
    + apply IH.
Qed.

Lemma record_extends file cn ts port_data :
  ∃ new,
    extends cn ts file (record real_to_text file cn ts port_data).2 new ∧
    match (record real_to_text file cn ts port_data).1 with
    | Ok b => b = bool_decide (new ≠ [])
    | Raise _ => (record real_to_text file cn ts port_data).2 = file
    end ∧
    (new = [] → (record real_to_text file cn ts port_data).2 = file).
Proof.
  unfold record.
  destruct (store_loop real_to_text file cn ts port_data connect false)
    as [[conn' any'] |] eqn:Hloop.
  - apply store_loop_extends in Hloop as (new & Hext & -> & Hnil).
    exists new. split; [exact Hext |]. split; [done |].
    intros ->%Hnil. done.
  - exists []. split; [apply extends_refl | done].
Qed.

(** X5.  Whatever the answer, and whether the call returns or raises,
    [store_data] only appends: the schema and the rows the store held stay
    as they were, in place; every new row carries the entity and the time
    stamp of the call, and the new rows take the next free ids, in order,
    each above every id the table held. *)
Theorem store_data_appends_only file cn ts response_data :
  ∃ new,
    sqlite_master (store_data real_to_text file cn ts response_data).2 =
      sqlite_master file ∧
    charger_data (store_data real_to_text file cn ts response_data).2 =
      charger_data file ++ new ∧
    Forall (λ r, charger_name r = cn ∧ timestamp r = ts) new ∧
    id <$> new = seqZ (next_rowid file) (Z.of_nat (length new)) ∧
    ∀ old r, old ∈ charger_data file → r ∈ new → (id old < id r)%Z.
Proof.
  unfold store_data.
  destruct (record_extends file cn ts (extract_port_data response_data))
    as (new & Hext & _).
  pose proof Hext as (Hm & Hrows & _ & Hall & Hids).
  exists new. repeat split; try done.
  intros old r. by eapply extends_ids_above.
Qed.

(** X6.  Whatever the answer: when [store_data] returns, it returns [true]
    exactly when it appended a row; when it raises, the store is as it was
    before the call, also if rows had been inserted before the error. *)
Theorem store_data_returns_or_rolls_back file cn ts response_data :
  match (store_data real_to_text file cn ts response_data).1 with
  | Ok b =>
      b = true ↔
      appended file (store_data real_to_text file cn ts response_data).2 ≠ []
  | Raise _ => (store_data real_to_text file cn ts response_data).2 = file
  end.
Proof.
  unfold store_data.
  destruct (record_extends file cn ts (extract_port_data response_data))
    as (new & (_ & Hrows & _) & Hout & _).
  destruct (record _ _ _ _ _).1 as [b |]; [| done].
  unfold appended. rewrite Hrows, drop_app_length, Hout.
  rewrite bool_decide_eq_true. done.
Qed.

(** X7.  A table keyed by increasing ids stays so under [store_data],
    whatever the answer. *)
Theorem store_data_keeps_keyed file cn ts response_data :
  keyed file → keyed (store_data real_to_text file cn ts response_data).2.
Proof.
  unfold store_data.
  destruct (record_extends file cn ts (extract_port_data response_data))
    as (new & Hext & _).
  by eapply extends_keyed.
Qed.

(** X8.  On a store without the table, as before [init_database] has run,
    [store_data] raises [OperationalError] whatever the answer, and leaves
    the store as it was. *)
Theorem store_data_without_table file cn ts response_data :
  has_object Table "charger_data" file = false →
  store_data real_to_text file cn ts response_data =
  (Raise OperationalError, file).
Proof.
  intros Hno. unfold store_data, record.
  destruct (extract_port_data_nonempty response_data) as ([pid st] & l & ->).
  cbn [store_loop]. unfold get_last_port_state, select_last, connect, view.
  cbn [default]. by rewrite Hno.
Qed.

(** X9.  What [store_data] stores for an entity leaves the last-known state
    of every other entity as it was, whatever the answer and whatever the
    sub-resource looked up. *)
Theorem store_data_other_entity_unaffected file cn ts response_data cn' pid :
  cn ≠ cn' →
  get_last_port_state real_to_text
    (store_data real_to_text file cn ts response_data).2 cn' pid =
  get_last_port_state real_to_text file cn' pid.
Proof.
  intros Hcn. unfold store_data.
  destruct (record_extends file cn ts (extract_port_data response_data))
    as (new & (Hm & Hrows & _ & Hall & _) & _).
  unfold get_last_port_state, select_last, connect, view. cbn [default].
  rewrite (has_object_master _ _ _ _ Hm).
  destruct (has_object Table "charger_data" file); [| done]. cbn [negb].
  destruct (bind_param pid) as [p |]; [| done]. run_monad.
  destruct (text_affinity real_to_text p) as [p' |]; [| done].
  rewrite Hrows, filter_app.
  rewrite (filter_none _ new); [by rewrite app_nil_r |].
  rewrite Forall_forall in Hall.
  intros r [Hr _]%Hall [Hr' _]. congruence.
Qed.

End AnyAnswer.

Lemma store_data_keeps_keyed_witness :
  keyed one_record_store ∧
  keyed (store_data (λ _, None) one_record_store "NSP-BRI-01"
           "2025-01-01T00:01:57"
           (answer_of [port_of "A1" "charging"; port_of "A2" "available"])).2.
Proof.
  assert (keyed one_record_store) as Hkey by (repeat constructor).
  split; [exact Hkey |]. by apply store_data_keeps_keyed.
Defined.

Lemma store_data_without_table_witness :
  has_object Table "charger_data" empty_db = false ∧
  store_data (λ _, None) empty_db "NSP-BRI-01" "2025-01-01T00:00:00"
    (answer_of [port_of "A1" "available"]) =
  (Raise OperationalError, empty_db).
Proof. split; [reflexivity |]. by apply store_data_without_table. Defined.

Lemma store_data_other_entity_unaffected_witness :
  get_last_port_state (λ _, None)
    (store_data (λ _, None) one_record_store "NSP-BRI-02"
       "2025-01-01T00:01:57" (answer_of [port_of "A1" "charging"])).2
    "NSP-BRI-01" (JStr "A1") =
  Ok (Some "available").
Proof.
  rewrite store_data_other_entity_unaffected; [reflexivity | discriminate].
Defined.

(** ** Values the table refuses or rewrites *)

Section Values.

Variable real_to_text : Z → option string.

Lemma null_pair_raises file conn cn ts pid st last :
  pid = JNull ∨ st = JNull →
  get_last_port_state real_to_text file cn pid = Ok last →
  status_changed last st = true ∧
  ∃ e, execute_insert real_to_text file conn cn ts pid st = Raise e.
Proof.
  unfold get_last_port_state, select_last, execute_insert, connect.
  intros [-> | ->].
  - destruct (has_object Table "charger_data" (view file None)); [| done].
    cbn [negb bind_param]. run_monad. cbn [text_affinity fmap option_fmap option_map].
    intros [= <-]. split; [done |].
    destruct (has_object Table "charger_data" (view file conn));
      cbn [negb]; [| by eauto].
    destruct (bind_param st) as [s |]; [by eauto | by eauto].
  - intros _. split; [by destruct last |].
    destruct (has_object Table "charger_data" (view file conn));
      cbn [negb]; [| by eauto].
    destruct (bind_param pid) as [p |]; [| by eauto].
    cbn [bind_param]. run_monad. cbn [text_affinity].
    destruct (text_affinity real_to_text p); by eauto.
Qed.

Lemma store_loop_null file cn ts port_data conn any pid st :
  (pid, st) ∈ port_data → pid = JNull ∨ st = JNull →
  ∃ e, store_loop real_to_text file cn ts port_data conn any = Raise e.
Proof.
  intros Hin Hnull. revert conn any.
  induction port_data as [| [pid0 st0] rest IH]; intros conn any;
    [by apply elem_of_nil in Hin |].
  cbn [store_loop].
  destruct (get_last_port_state real_to_text file cn pid0) as [last | e]
    eqn:Hlast; [| by eauto].
  run_monad.
  apply elem_of_cons in Hin as [[= <- <-] | Hin].
  - destruct (null_pair_raises file conn cn ts pid st last Hnull Hlast)
      as [-> [e ->]].
    by eauto.
  - destruct (status_changed last st0); [| by apply IH].
    destruct (execute_insert real_to_text file conn cn ts pid0 st0)
      as [conn1 | e]; [by apply IH | by eauto].
Qed.

(** X10.  The columns are NOT NULL: when one of the pairs extracted from the
    answer has [null] for its port id or its status, [store_data] raises,
    and nothing of the answer is stored, the pairs before it included. *)
Theorem store_data_null_raises file cn ts response_data pid st :
  (pid, st) ∈ extract_port_data response_data →
  pid = JNull ∨ st = JNull →
  ∃ e, store_data real_to_text file cn ts response_data = (Raise e, file).
Proof.
  intros Hin Hnull. unfold store_data, record.
  destruct (store_loop_null file cn ts _ connect false pid st Hin Hnull)
    as [e ->].
  by eauto.
Qed.

(** X11.  A status that is a number is stored as its decimal text, and a
    stored text never equals a number: on a store with the table, a pair
    with a string port id and an integer status is stored at every call,
    also when the last status stored for it is that same text. *)
Theorem record_number_status_always_stored file cn ts pid n :
  table_exists file → int64 n →
  record real_to_text file cn ts [(JStr pid, JInt n)] =
  (Ok true, insert_text cn ts file (pid, pretty n)).
Proof.
  intros Hfile [Hlo Hhi]. unfold record. cbn [store_loop].
  rewrite get_last_port_state_text by done. run_monad.
  assert (status_changed (last_status (charger_data file) cn pid) (JInt n) = true)
    as -> by by destruct (last_status _ _ _).
  unfold execute_insert, connect, view. cbn [default].
  rewrite Hfile. cbn [negb bind_param].
  assert ((- 2 ^ 63 <=? n)%Z && (n <? 2 ^ 63)%Z = true) as ->.
  { apply andb_true_iff. split; [by apply Z.leb_le | by apply Z.ltb_lt]. }
  done.
Qed.

End Values.

Lemma store_data_null_raises_witness :
  ∃ e,
    store_data (λ _, None) one_record_store "NSP-BRI-01" "2025-01-01T00:01:57"
      (answer_of [port_of "A1" "charging";
                  JObj (<["portId" := JStr "A2"]> {["status" := JNull]})]) =
    (Raise e, one_record_store).
Proof.
  apply (store_data_null_raises _ _ _ _ _ (JStr "A2") JNull).
  - assert (extract_port_data
              (answer_of
                 [port_of "A1" "charging";
                  JObj (<["portId" := JStr "A2"]> {["status" := JNull]})]) =
            [(JStr "A1", JStr "charging"); (JStr "A2", JNull)]) as ->
      by (vm_compute; reflexivity).
    repeat constructor.
  - by right.
Defined.

Lemma record_number_status_always_stored_witness :
  last_status
    (charger_data
       (record (λ _, None) initial_store "NSP-BRI-01" "t1"
          [(JStr "A1", JInt 1)]).2) "NSP-BRI-01" "A1" = Some "1" ∧
  record (λ _, None)
    (record (λ _, None) initial_store "NSP-BRI-01" "t1"
       [(JStr "A1", JInt 1)]).2 "NSP-BRI-01" "t2" [(JStr "A1", JInt 1)] =
  (Ok true,
   MkDatabase (sqlite_master initial_store)
     [MkRow 1 "NSP-BRI-01" "t1" "A1" "1"; MkRow 2 "NSP-BRI-01" "t2" "A1" "1"]
     2).
Proof.
  split; [reflexivity |].
  rewrite (record_number_status_always_stored (λ _, None) initial_store);
    [| reflexivity | by vm_compute].
  rewrite record_number_status_always_stored;
    [reflexivity | reflexivity | by vm_compute].
Defined.

(** ** Lookup after a call, and the same answer twice *)

Lemma last_status_after_inserts cn ts file (ps : list (string * string)) p :
  keyed file → NoDup ps.*1 → p ∈ ps →
  last_status
    (charger_data (foldl (insert_text cn ts) file (filter (changed file cn) ps)))
    cn p.1 = Some p.2.
Proof.
  intros Hkey Hnd Hp.
  rewrite last_status_keyed by by apply keyed_foldl_insert_text.
  rewrite foldl_insert_text_rows. unfold records_of. rewrite filter_app, fmap_app.
  fold (records_of cn p.1 (charger_data file)).
  fold (records_of cn p.1
          (fresh_rows (next_rowid file) cn ts (filter (changed file cn) ps))).
  rewrite fresh_rows_statuses. rewrite decide_True by done.
  assert (NoDup (filter (changed file cn) ps).*1) as Hnd'.
  { eapply sublist_NoDup; [done |]. apply fmap_sublist, sublist_filter. }
  destruct (filter_fst_NoDup _ p.1 Hnd') as [Hnil | (q & Hq & Hin & Heq)].
  - rewrite Hnil. cbn [fmap list_fmap]. rewrite app_nil_r.
    rewrite <- last_status_keyed by done.
    destruct (decide (changed file cn p)) as [Hc | Hc].
    + exfalso. eapply (filter_nil_not_elem_of _ _ p Hnil); [done |].
      by apply list_elem_of_filter.
    + unfold changed in Hc. by apply dec_stable in Hc.
  - rewrite Hq. apply list_elem_of_filter in Hin as [_ Hin].
    rewrite (NoDup_fst_inj ps q p Hnd Hin Hp Heq).
    cbn [fmap list_fmap]. by rewrite last_snoc.
Qed.

Section Twice.

Variable real_to_text : Z → option string.

(** X12.  On a keyed store with the table, after a call on string pairs
    that name each sub-resource once, the lookup for every pair of the call
    returns the status the call carried for it, stored by this call or
    before. *)
Theorem lookup_after_record file cn ts (ps : list (string * string)) p :
  table_exists file → keyed file → NoDup ps.*1 → p ∈ ps →
  get_last_port_state real_to_text
    (record real_to_text file cn ts (text_pair <$> ps)).2 cn (JStr p.1) =
  Ok (Some p.2).
Proof.
  intros Hfile Hkey Hnd Hp. rewrite record_text by done. cbn [snd].
  rewrite get_last_port_state_text
    by by apply table_exists_foldl_insert_text.
  by rewrite last_status_after_inserts.
Qed.

(** X13.  On a keyed store with the table, a second call with the same
    string pairs, each sub-resource named once, at whatever time, stores
    nothing and returns [false]. *)
Theorem record_twice_is_noop file cn ts ts' (ps : list (string * string)) :
  table_exists file → keyed file → NoDup ps.*1 →
  record real_to_text
    (record real_to_text file cn ts (text_pair <$> ps)).2 cn ts'
    (text_pair <$> ps) =
  (Ok false, (record real_to_text file cn ts (text_pair <$> ps)).2).
Proof.
  intros Hfile Hkey Hnd. rewrite (record_text _ file) by done. cbn [snd].
  rewrite record_text by by apply table_exists_foldl_insert_text.
  rewrite (filter_none (changed _ cn) ps); [done |].
  intros p Hp Hc. apply Hc. by apply last_status_after_inserts.
Qed.

End Twice.

Lemma lookup_after_record_witness :
  get_last_port_state (λ _, None)
    (record (λ _, None) one_record_store "NSP-BRI-01" "2025-01-01T00:01:57"
       (text_pair <$> [("A1", "available"); ("A2", "charging")])).2
    "NSP-BRI-01" (JStr "A1") = Ok (Some "available") ∧
  get_last_port_state (λ _, None)
    (record (λ _, None) one_record_store "NSP-BRI-01" "2025-01-01T00:01:57"
       (text_pair <$> [("A1", "available"); ("A2", "charging")])).2
    "NSP-BRI-01" (JStr "A2") = Ok (Some "charging").
Proof.
  assert (table_exists one_record_store) as Htab by reflexivity.
  assert (keyed one_record_store) as Hkey by (repeat constructor).
  assert (NoDup [("A1", "available"); ("A2", "charging")].*1) as Hnd.
  { refine (bool_decide_unpack _ _). vm_compute. exact I. }
  split.
  - apply (lookup_after_record (λ _, None) one_record_store _ _ _
             ("A1", "available") Htab Hkey Hnd).
    repeat constructor.
  - apply (lookup_after_record (λ _, None) one_record_store _ _ _
             ("A2", "charging") Htab Hkey Hnd).
    repeat constructor.
Defined.

Lemma record_twice_is_noop_witness :
  record (λ _, None)
    (record (λ _, None) one_record_store "NSP-BRI-01" "2025-01-01T00:01:57"
       (text_pair <$> [("A1", "charging"); ("A2", "available")])).2
    "NSP-BRI-01" "2025-01-01T00:03:54"
    (text_pair <$> [("A1", "charging"); ("A2", "available")]) =
  (Ok false,
   MkDatabase (sqlite_master initial_store)
     [MkRow 1 "NSP-BRI-01" "2025-01-01T00:00:00" "A1" "available";
      MkRow 2 "NSP-BRI-01" "2025-01-01T00:01:57" "A1" "charging";
      MkRow 3 "NSP-BRI-01" "2025-01-01T00:01:57" "A2" "available"] 3).
Proof.
  rewrite record_twice_is_noop.
  - reflexivity.
  - reflexivity.
  - repeat constructor.
  - refine (bool_decide_unpack _ _). vm_compute. exact I.
Defined.

(** ** More of store initialisation *)

Lemma has_object_table_added t name db :
  has_object t name
    (MkDatabase
       (sqlite_master db ++ [SchemaEntry Table "charger_data" "charger_data"])
       [] 0) =
  has_object t name db ||
  is_object t name (SchemaEntry Table "charger_data" "charger_data").
Proof. apply has_object_snoc. Qed.

(** X14.  [init_database] raises [OperationalError] when a name it needs is
    taken: an index is named charger_data where no table is, or a table is
    named idx_charger_name. *)
Theorem init_database_name_clash_raises file :
  (has_object Table "charger_data" file = false ∧
   has_object Index "charger_data" file = true) ∨
  has_object Table "idx_charger_name" file = true →
  (init_database file).1 = Raise OperationalError.
Proof.
  unfold init_database, create_table.
  destruct (has_object Table "charger_data" file) eqn:Htab.
  - intros [[? _] | Hclash]; [done |].
    unfold create_index. by rewrite Htab, Hclash.
  - destruct (has_object Index "charger_data" file) eqn:Hidx; [done |].
    intros [[_ ?] | Hclash]; [done |].
    unfold create_index. rewrite !has_object_table_added, Htab, Hclash.
    change (is_object Table "charger_data"
              (SchemaEntry Table "charger_data" "charger_data")) with true.
    by rewrite orb_true_r.
Qed.

(** X15.  On a store that has the table, [init_database] never touches the
    History Records: rows and sequence counter are as before, whether it
    succeeds or raises, and the schema keeps its entries, in place. *)
Theorem init_database_keeps_records file :
  table_exists file →
  charger_data (init_database file).2 = charger_data file ∧
  sqlite_sequence (init_database file).2 = sqlite_sequence file ∧
  sqlite_master file `prefix_of` sqlite_master (init_database file).2.
Proof.
  unfold table_exists, init_database, create_table.
  intros Htab. rewrite Htab. unfold create_index. rewrite Htab. cbn [negb].
  destruct (has_object Table "idx_charger_name" file); cbn [snd];
    [by repeat split |].
  destruct (has_object Index "idx_charger_name" file); cbn [snd];
    [by repeat split |].
  cbn [add_object charger_data sqlite_sequence sqlite_master].
  repeat split. by apply prefix_app_r.
Qed.

(** X16.  The two statements of [init_database] take effect one by one:
    when the table is created and the index then fails on a table named
    idx_charger_name, the call raises and the new table stays. *)
Theorem init_database_fails_after_table file :
  has_object Table "charger_data" file = false →
  has_object Index "charger_data" file = false →
  has_object Table "idx_charger_name" file = true →
  init_database file =
  (Raise OperationalError,
   MkDatabase
     (sqlite_master file ++ [SchemaEntry Table "charger_data" "charger_data"])
     [] 0).
Proof.
  intros Htab Hidx Hclash. unfold init_database, create_table.
  rewrite Htab, Hidx. unfold create_index.
  rewrite !has_object_table_added, Htab, Hclash. done.
Qed.

Lemma init_database_keeps_records_witness :
  table_exists one_record_store ∧
  charger_data (init_database one_record_store).2 =
    [MkRow 1 "NSP-BRI-01" "2025-01-01T00:00:00" "A1" "available"].
Proof.
  assert (table_exists one_record_store) as Htab by reflexivity.
  split; [exact Htab |].
  destruct (init_database_keeps_records one_record_store Htab) as (-> & _).
  reflexivity.
Defined.

Lemma init_database_name_clash_raises_witness :
  (init_database
     (MkDatabase [SchemaEntry Table "ports" "ports";
                  SchemaEntry Index "charger_data" "ports"] [] 0)).1 =
  Raise OperationalError.
Proof.
  apply init_database_name_clash_raises. left. split; reflexivity.
Defined.

Lemma init_database_fails_after_table_witness :
  init_database
    (MkDatabase [SchemaEntry Table "IDX_CHARGER_NAME" "IDX_CHARGER_NAME"] [] 0) =
  (Raise OperationalError,
   MkDatabase [SchemaEntry Table "IDX_CHARGER_NAME" "IDX_CHARGER_NAME";
               SchemaEntry Table "charger_data" "charger_data"] [] 0).
Proof.
  rewrite init_database_fails_after_table; reflexivity.
Defined.

(** ** The Scheduler Loop: cycles *)

Section SchedulerFacts.

Variable real_to_text : Z → option string.

Lemma poll_once_extends net file cn ts :
  ∃ new, extends cn ts file (poll_once real_to_text net file cn ts).2 new.
Proof.
  unfold poll_once. destruct (query_api net cn) as [r | e].
  - unfold store_data.
    destruct (record_extends real_to_text file cn ts
                (extract_port_data (data r))) as (new & Hext & _).
    by exists new.
  - exists []. apply extends_refl.
Qed.

Lemma poll_once_raise net file cn ts e :
  (poll_once real_to_text net file cn ts).1 = Raise e →
  (poll_once real_to_text net file cn ts).2 = file.
Proof.
  unfold poll_once. destruct (query_api net cn) as [r | e0]; [| done].
  unfold store_data.
  destruct (record_extends real_to_text file cn ts
              (extract_port_data (data r))) as (new & _ & Hout & _).
  intros Hr. by rewrite Hr in Hout.
Qed.

Lemma poll_chargers_app net ts before after file printed :
  poll_chargers real_to_text net ts (before ++ after) file printed =
  match poll_chargers real_to_text net ts before file printed with
  | (Ok _, file1, printed1) =>
      poll_chargers real_to_text net ts after file1 printed1
  | (Raise e, file1, printed1) => (Raise e, file1, printed1)
  end.
Proof.
  revert file printed. induction before as [| cn before IH];
    intros file printed; [done |].
  cbn [app poll_chargers].
  destruct (poll_once real_to_text net file cn ts) as [[b | e] file'];
    [apply IH | done].
Qed.

(** X17.  One cycle only appends, and stamps every row it appends with the
    one time stamp of the cycle; each new row belongs to a charger of the
    cycle.  This holds also when the cycle ends on an exception. *)
Theorem poll_chargers_one_time_stamp net ts chargers file printed :
  ∃ new,
    sqlite_master
      (poll_chargers real_to_text net ts chargers file printed).1.2 =
      sqlite_master file ∧
    charger_data
      (poll_chargers real_to_text net ts chargers file printed).1.2 =
      charger_data file ++ new ∧
    Forall (λ r, timestamp r = ts ∧ charger_name r ∈ chargers) new.
Proof.
  revert file printed. induction chargers as [| cn chargers IH];
    intros file printed.
  - exists []. by rewrite app_nil_r.
  - cbn [poll_chargers].
    destruct (poll_once_extends net file cn ts)
      as (new & Hm & Hrows & _ & Hall & _).
    assert (Forall (λ r, timestamp r = ts ∧ charger_name r ∈ cn :: chargers)
              new) as Hnew.
    { eapply Forall_impl; [exact Hall |]. intros r [-> ->].
      split; [done | left]. }
    destruct (poll_once real_to_text net file cn ts) as [[b | e] file'];
      cbn [snd] in Hm, Hrows.
    + destruct (IH file'
                  (if b then printed ++ [(ts, cn)] else printed))
        as (new' & Hm' & Hrows' & Hall').
      exists (new ++ new'). split; [congruence |].
      split; [by rewrite Hrows', Hrows, app_assoc |].
      apply Forall_app. split; [done |].
      eapply Forall_impl; [exact Hall' |]. intros r [-> Hr].
      split; [done | by right].
    + exists new. by cbn [fst snd].
Qed.

(** X18.  When the poll of a charger raises, the cycle ends there: the
    chargers after it are not polled, the failed poll stores nothing, and
    what the chargers before it stored stays in the store. *)
Theorem poll_chargers_stops_at_error net ts before cn after
    file printed file1 printed1 e :
  poll_chargers real_to_text net ts before file printed =
    (Ok tt, file1, printed1) →
  (poll_once real_to_text net file1 cn ts).1 = Raise e →
  poll_chargers real_to_text net ts (before ++ cn :: after) file printed =
    (Raise e, file1, printed1).
Proof.
  intros Hbefore Hraise. rewrite poll_chargers_app, Hbefore.
  cbn [poll_chargers]. pose proof (poll_once_raise _ _ _ _ _ Hraise) as Hfile.
  destruct (poll_once real_to_text net file1 cn ts) as [[b | e'] file'];
    [done |].
  cbn [fst snd] in *. congruence.
Qed.

Lemma run_cycles_ended cycles rest file printed :
  (run_cycles real_to_text cycles file printed).1.1 ≠ Interrupted →
  run_cycles real_to_text (cycles ++ rest) file printed =
  run_cycles real_to_text cycles file printed.
Proof.
  revert file printed. induction cycles as [| [ts net] cycles IH];
    intros file printed; [done |].
  cbn [app run_cycles].
  destruct (poll_chargers real_to_text net ts CHARGERS file printed)
    as [[[[] | e] file'] printed']; [apply IH | done].
Qed.

(** X19.  Once [main] has ended on an exception, of [init_database] or of a
    cycle, nothing more is polled or stored: the cycles that would have
    followed change neither the store nor the console. *)
Theorem main_ends_at_first_error cycles rest file :
  (main real_to_text cycles file).1.1 ≠ Interrupted →
  main real_to_text (cycles ++ rest) file = main real_to_text cycles file.
Proof.
  unfold main. destruct (init_database file) as [[[] | e] file']; [| done].
  apply run_cycles_ended.
Qed.

Lemma poll_once_text net file cn ts (ps : list (string * string)) :
  fetch net cn = Ok (text_pair <$> ps) →
  poll_once real_to_text net file cn ts =
  record real_to_text file cn ts (text_pair <$> ps).
Proof.
  unfold fetch, poll_once, store_data.
  destruct (query_api net cn) as [r | e]; [| done].
  run_monad. by intros [= ->].
Qed.

Lemma poll_chargers_text net ts chargers file printed :
  (∀ cn, cn ∈ chargers →
         ∃ ps, fetch net cn = Ok (text_pair <$> ps) ∧ NoDup ps.*1) →
  transitions_only file →
  ∃ file' printed',
    poll_chargers real_to_text net ts chargers file printed =
      (Ok tt, file', printed') ∧
    transitions_only file'.
Proof.
  revert file printed. induction chargers as [| cn chargers IH];
    intros file printed Hnet Hfile; [by eauto |].
  cbn [poll_chargers].
  destruct (Hnet cn) as (ps & Hfetch & Hnd); [left |].
  rewrite (poll_once_text _ _ _ _ _ Hfetch).
  pose proof (transitions_only_record real_to_text file cn ts ps Hnd Hfile)
    as Hnext.
  rewrite record_text in * by apply Hfile.
  apply IH; [| exact Hnext]. intros cn' Hcn'. apply Hnet. by right.
Qed.

Lemma run_cycles_text cycles file printed :
  Forall (λ c, serves_text c.2) cycles → transitions_only file →
  ∃ file' printed',
    run_cycles real_to_text cycles file printed =
      (Interrupted, file', printed') ∧
    transitions_only file'.
Proof.
  intros Hcycles. revert file printed.
  induction Hcycles as [| [ts net] cycles Hnet _ IH]; intros file printed Hfile;
    [by eauto |].
  cbn [run_cycles].
  destruct (poll_chargers_text net ts CHARGERS file printed Hnet Hfile)
    as (file1 & printed1 & -> & Hfile1).
  by apply IH.
Qed.

(** X20.  When [init_database] succeeds on a store that holds transitions
    only, and in every cycle every charger of the fleet fetches pairs of
    strings naming each sub-resource once (the sentinel pair of a failed
    GET is such an answer), [main] never ends on an error, and when it is
    interrupted no pair has two adjacent equal statuses in its history. *)
Theorem main_keeps_transitions cycles file :
  Forall (λ c, serves_text c.2) cycles →
  (init_database file).1 = Ok tt →
  transitions_only (init_database file).2 →
  ∃ file' printed,
    main real_to_text cycles file = (Interrupted, file', printed) ∧
    ∀ cn pid, no_adjacent_equal (history file' cn pid).
Proof.
  intros Hcycles Hinit Hfile. unfold main.
  destruct (init_database file) as [[[] | e] file0]; [| done].
  destruct (run_cycles_text cycles file0 [] Hcycles Hfile)
    as (file' & printed & -> & _ & Hkey & Hruns).
  exists file', printed. split; [done |].
  intros cn pid. by rewrite history_keyed.
Qed.

End SchedulerFacts.

Lemma transitions_only_initial_store : transitions_only initial_store.
Proof.
  split; [reflexivity |]. split; [constructor |].
  intros cn pid i a b Ha.
  change (charger_data initial_store) with (@nil Row) in Ha.
  unfold records_of in Ha. by rewrite filter_nil, fmap_nil, lookup_nil in Ha.
Qed.

Lemma serves_text_answering_one (pid st : string) :
  serves_text (answering (answer_of [port_of pid st])).
Proof.
  intros cn _. exists [(pid, st)]. split; [| by apply NoDup_singleton].
  unfold fetch, query_api, requests_get, response_json, answering.
  run_monad. cbn [resp_status_code resp_parsed data Z.eqb Pos.eqb].
  by f_equal.
Qed.

Lemma serves_text_timing_out : serves_text timing_out.
Proof.
  intros cn _. exists [("unknown", "error")].
  split; [| by apply NoDup_singleton].
  unfold fetch, query_api, requests_get, timing_out. run_monad. cbn [data].
  by f_equal.
Qed.

Lemma poll_chargers_stops_at_error_witness :
  let net : network :=
    λ url,
      if String.eqb url (charger_url "NSP-BRI-02")
      then Ok (Response 200 ""
                  (Ok (answer_of [JObj {["portId" := JStr "A1"]};
                                   JObj (<["portId" := JStr "A2"]>
                                           {["status" := JNull]})])))
      else Ok (Response 200 "" (Ok (answer_of [port_of "A1" "available"]))) in
  poll_chargers (λ _, None) net "t1"
    (["NSP-BRI-01"] ++ "NSP-BRI-02" :: ["NSP-MAS-01"]) initial_store [] =
  (Raise IntegrityError,
   MkDatabase (sqlite_master initial_store)
     [MkRow 1 "NSP-BRI-01" "t1" "A1" "available"] 1,
   [("t1", "NSP-BRI-01")]).
Proof.
  cbv zeta.
  apply poll_chargers_stops_at_error; vm_compute; reflexivity.
Defined.

Lemma main_ends_at_first_error_witness :
  main (λ _, None)
    ([("t1", answering (answer_of [JObj {["status" := JNull]}]))] ++
     [("t2", timing_out)]) empty_db =
  (UnexpectedError IntegrityError, initial_store, []).
Proof.
  rewrite main_ends_at_first_error.
  - vm_compute. reflexivity.
  - vm_compute. discriminate.
Defined.

Lemma main_keeps_transitions_witness :
  ∃ file' printed,
    main (λ _, None)
      [("t1", answering (answer_of [port_of "A1" "available"]));
       ("t2", timing_out);
       ("t3", answering (answer_of [port_of "A1" "available"]))] empty_db =
      (Interrupted, file', printed) ∧
    history file' "NSP-BRI-01" "A1" = ["available"] ∧
    history file' "NSP-BRI-01" "unknown" = ["error"].
Proof.
  destruct (main_keeps_transitions (λ _, None)
              [("t1", answering (answer_of [port_of "A1" "available"]));
               ("t2", timing_out);
               ("t3", answering (answer_of [port_of "A1" "available"]))]
              empty_db) as (file' & printed & Hmain & _).
  - repeat constructor; cbn [snd];
      [apply serves_text_answering_one | apply serves_text_timing_out
       | apply serves_text_answering_one].
  - reflexivity.
  - apply transitions_only_initial_store.
  - exists file', printed. split; [exact Hmain |].
    assert (main (λ _, None)
              [("t1", answering (answer_of [port_of "A1" "available"]));
               ("t2", timing_out);
               ("t3", answering (answer_of [port_of "A1" "available"]))]
              empty_db =
            (Interrupted, file', printed) →
            history file' "NSP-BRI-01" "A1" = ["available"] ∧
            history file' "NSP-BRI-01" "unknown" = ["error"]) as Hval.
    { vm_compute. intros [= <- _]. split; reflexivity. }
    exact (Hval Hmain).
Defined.

(** ** Independence across the ports of an entity, for any siblings *)

Section Siblings.

Variable real_to_text : Z → option string.

Lemma store_loop_app file cn ts l1 l2 conn any :
  store_loop real_to_text file cn ts (l1 ++ l2) conn any =
  match store_loop real_to_text file cn ts l1 conn any with
  | Ok (conn1, any1) => store_loop real_to_text file cn ts l2 conn1 any1
  | Raise e => Raise e
  end.
Proof.
  revert conn any. induction l1 as [| [pid st] l1 IH]; intros conn any;
    [done |].
  cbn [app store_loop].
  destruct (get_last_port_state real_to_text file cn pid) as [last |];
    [| done].
  run_monad. destruct (status_changed last st); [| apply IH].
  destruct (execute_insert real_to_text file conn cn ts pid st); [| done].
  apply IH.
Qed.

Lemma execute_insert_stored_id file conn cn ts pid st conn1 :
  execute_insert real_to_text file conn cn ts pid st = Ok conn1 →
  ∃ p, stored_id real_to_text pid = Some p.1 ∧
       conn1 = Some (insert_text cn ts (view file conn) p).
Proof.
  unfold execute_insert, stored_id.
  destruct (has_object Table "charger_data" (view file conn)); [| done].
  cbn [negb]. destruct (bind_param pid) as [v |]; [| done].
  destruct (bind_param st) as [s |]; [| done]. run_monad.
  destruct (text_affinity real_to_text v) as [pt |]; [| done].
  destruct (text_affinity real_to_text s) as [stt |]; [| done].
  intros [= <-]. by exists (pt, stt).
Qed.

(** Pairs stored under other ids leave the rows of a port id as they are. *)
Lemma store_loop_other_ports file cn ts l conn any conn1 any1 pid :
  store_loop real_to_text file cn ts l conn any = Ok (conn1, any1) →
  (∀ q, q ∈ l → stored_id real_to_text q.1 ≠ Some pid) →
  filter (λ r, port_id r = pid) (charger_data (view file conn1)) =
  filter (λ r, port_id r = pid) (charger_data (view file conn)).
Proof.
  revert conn any. induction l as [| [pid0 st0] l IH]; intros conn any;
    cbn [store_loop].
  - by intros [= <- <-].
  - intros Hloop Hother.
    assert (∀ q, q ∈ l → stored_id real_to_text q.1 ≠ Some pid) as Hrest
      by (intros q Hq; apply Hother; by right).
    destruct (get_last_port_state real_to_text file cn pid0) as [last |];
      [| done].
    revert Hloop. run_monad. destruct (status_changed last st0).
    + destruct (execute_insert real_to_text file conn cn ts pid0 st0)
        as [conn2 |] eqn:Hins; [| done].
      apply execute_insert_stored_id in Hins as (p & Hid & ->).
      intros Hloop. rewrite (IH _ _ Hloop Hrest), view_Some.
      unfold insert_text. cbn [charger_data]. rewrite filter_app.
      rewrite filter_cons_False, filter_nil; [by rewrite app_nil_r |].
      cbn [port_id]. intros <-. by apply (Hother (pid0, st0)); [left |].
    + intros Hloop. by apply (IH _ _ Hloop Hrest).
Qed.

Lemma get_last_port_state_Ok file cn pid last :
  get_last_port_state real_to_text file cn pid = Ok last → table_exists file.
Proof.
  unfold get_last_port_state, select_last, connect, view, table_exists.
  cbn [default]. by destruct (has_object Table "charger_data" file).
Qed.

(** A pair the loop gets past is stored under some text: the lookup
    refuses a list or a dict, and the INSERT refuses [null]. *)
Lemma store_loop_cons_stored_id file cn ts q post conn any conn1 any1 :
  store_loop real_to_text file cn ts (q :: post) conn any =
    Ok (conn1, any1) →
  ∃ t, stored_id real_to_text q.1 = Some t.
Proof.
  destruct q as [pid st]. cbn [store_loop fst].
  destruct (stored_id real_to_text pid) as [t |] eqn:Hid; [by eauto |].
  intros Hloop. exfalso. revert Hloop Hid.
  unfold get_last_port_state, select_last, execute_insert, stored_id.
  destruct (has_object Table "charger_data" (view file connect)); [| done].
  cbn [negb]. destruct (bind_param pid) as [v |]; [| done]. run_monad.
  intros Hloop Hv. revert Hloop. rewrite Hv.
  cbn [fmap option_fmap option_map status_changed].
  destruct (has_object Table "charger_data" (view file conn)); [| done].
  cbn [negb]. by destruct (bind_param st).
Qed.

(** The rows a returning loop holds for the sub-resource of a pair no other
    pair of the list is stored under: those of the file, and one more
    exactly when the pair differs from the last-known state of the file. *)
Lemma store_loop_port_rows file cn ts pre q post conn1 any1 t :
  store_loop real_to_text file cn ts (pre ++ q :: post) connect false =
    Ok (conn1, any1) →
  stored_id real_to_text q.1 = Some t →
  (∀ q', q' ∈ pre ++ post → stored_id real_to_text q'.1 ≠ Some t) →
  ∃ extra,
    filter (λ r, port_id r = t) (charger_data (view file conn1)) =
    filter (λ r, port_id r = t) (charger_data file) ++ extra ∧
    (extra ≠ [] ↔ differs real_to_text file cn q = true).
Proof.
  intros Hloop Hid Hother. rewrite store_loop_app in Hloop.
  destruct (store_loop real_to_text file cn ts pre connect false)
    as [[conn0 any0] |] eqn:Hpre; [| done].
  assert (filter (λ r, port_id r = t) (charger_data (view file conn0)) =
          filter (λ r, port_id r = t) (charger_data file)) as Hrows0.
  { apply (store_loop_other_ports _ _ _ _ _ _ _ _ _ Hpre).
    intros q' Hq'. apply Hother, elem_of_app. by left. }
  assert (∀ q', q' ∈ post → stored_id real_to_text q'.1 ≠ Some t) as Hpost.
  { intros q' Hq'. apply Hother, elem_of_app. by right. }
  destruct q as [pid st]. cbn [fst] in Hid. unfold differs. cbn [fst snd].
  rewrite Hid. cbn [store_loop] in Hloop.
  destruct (get_last_port_state real_to_text file cn pid)
    as [last |] eqn:Hlast; [| done].
  pose proof (get_last_port_state_Ok _ _ _ _ Hlast) as Hfile.
  rewrite (get_last_port_state_stored _ _ _ _ _ Hfile Hid) in Hlast.
  injection Hlast as <-. revert Hloop. run_monad.
  destruct (status_changed (last_status (charger_data file) cn t) st).
  - destruct (execute_insert real_to_text file conn0 cn ts pid st)
      as [conn2 |] eqn:Hins; [| done].
    apply execute_insert_stored_id in Hins as (p & Hp & ->).
    rewrite Hid in Hp. injection Hp as Hp. intros Hloop.
    exists [MkRow (next_rowid (view file conn0)) cn ts p.1 p.2].
    rewrite (store_loop_other_ports _ _ _ _ _ _ _ _ _ Hloop Hpost).
    rewrite view_Some. unfold insert_text. cbn [charger_data].
    rewrite filter_app.
    rewrite filter_cons_True, filter_nil by by cbn [port_id].
    rewrite Hrows0. split; [done |]. split; [done | by intros _].
  - intros Hloop. exists [].
    rewrite (store_loop_other_ports _ _ _ _ _ _ _ _ _ Hloop Hpost).
    rewrite Hrows0, app_nil_r. split; [done |]. split; [done | by intros ?].
Qed.

Lemma record_port_rows file cn ts pre q post b file1 :
  record real_to_text file cn ts (pre ++ q :: post) = (Ok b, file1) →
  (∀ q', q' ∈ pre ++ post →
         stored_id real_to_text q'.1 ≠ stored_id real_to_text q.1) →
  (∃ r, r ∈ appended file file1 ∧
        Some (port_id r) = stored_id real_to_text q.1) ↔
  differs real_to_text file cn q = true.
Proof.
  intros Hrec Hother.
  destruct (record_extends real_to_text file cn ts (pre ++ q :: post))
    as (new & (_ & Hrows & _) & _).
  rewrite Hrec in Hrows. cbn [snd] in Hrows.
  unfold record in Hrec.
  destruct (store_loop real_to_text file cn ts (pre ++ q :: post)
              connect false) as [[conn1 any1] |] eqn:Hloop; [| done].
  injection Hrec as _ <-.
  assert (∃ t, stored_id real_to_text q.1 = Some t) as [t Hid].
  { rewrite store_loop_app in Hloop.
    destruct (store_loop real_to_text file cn ts pre connect false)
      as [[conn0 any0] |]; [| done].
    by apply store_loop_cons_stored_id in Hloop. }
  rewrite Hid in Hother |- *.
  destruct (store_loop_port_rows _ _ _ _ _ _ _ _ _ Hloop Hid Hother)
    as (extra & Hextra & Hiff).
  unfold commit in Hrows. rewrite Hrows, filter_app in Hextra.
  apply app_inv_head in Hextra.
  unfold appended, commit. rewrite Hrows, drop_app_length.
  rewrite <- Hiff, <- Hextra. split.
  - intros (r & Hr & [= Hpid]) Hnil.
    assert (r ∈ filter (λ r, port_id r = t) new) as Hin
      by by apply list_elem_of_filter.
    rewrite Hnil in Hin. by apply elem_of_nil in Hin.
  - destruct (filter (λ r, port_id r = t) new) as [| r l] eqn:Hf; [done |].
    intros _. exists r.
    assert (r ∈ filter (λ r, port_id r = t) new) as Hin
      by (rewrite Hf; left).
    apply list_elem_of_filter in Hin as [<- ?]. done.
Qed.

(** C6 (as amended).  Take a call that returns, on a list of pairs, and in
    it a pair whose sub-resource no other pair of the list is stored under.
    A record is appended for that sub-resource exactly when the pair differs
    from the last-known state of its own sub-resource; so two such calls
    that share the pair and differ in its siblings, whatever values those
    carry, decide alike for it. *)
Theorem sibling_pairs_do_not_interfere file cn ts (q : pair_t)
    pre1 post1 pre2 post2 b1 file1 b2 file2 :
  (∀ q', q' ∈ pre1 ++ post1 →
         stored_id real_to_text q'.1 ≠ stored_id real_to_text q.1) →
  (∀ q', q' ∈ pre2 ++ post2 →
         stored_id real_to_text q'.1 ≠ stored_id real_to_text q.1) →
  record real_to_text file cn ts (pre1 ++ q :: post1) = (Ok b1, file1) →
  record real_to_text file cn ts (pre2 ++ q :: post2) = (Ok b2, file2) →
  ((∃ r, r ∈ appended file file1 ∧
         Some (port_id r) = stored_id real_to_text q.1) ↔
   differs real_to_text file cn q = true) ∧
  ((∃ r, r ∈ appended file file1 ∧
         Some (port_id r) = stored_id real_to_text q.1) ↔
   (∃ r, r ∈ appended file file2 ∧
         Some (port_id r) = stored_id real_to_text q.1)).
Proof.
  intros Hother1 Hother2 Hrec1 Hrec2.
  pose proof (record_port_rows _ _ _ _ _ _ _ _ Hrec1 Hother1) as H1.
  pose proof (record_port_rows _ _ _ _ _ _ _ _ Hrec2 Hother2) as H2.
  split; [done |]. by rewrite H1, H2.
Qed.

End Siblings.

Lemma sibling_pairs_do_not_interfere_witness :
  (∃ r,
     r ∈ appended one_record_store
           (record (λ _, None) one_record_store "NSP-BRI-01"
              "2025-01-01T00:01:57"
              ([] ++ (JStr "A1", JStr "charging") ::
                     [(JStr "A2", JStr "available")])).2 ∧
     Some (port_id r) = stored_id (λ _, None) (JStr "A1")) ↔
  (∃ r,
     r ∈ appended one_record_store
           (record (λ _, None) one_record_store "NSP-BRI-01"
              "2025-01-01T00:01:57"
              ([(JInt 3, JBool true)] ++ (JStr "A1", JStr "charging") ::
                     [])).2 ∧
     Some (port_id r) = stored_id (λ _, None) (JStr "A1")).
Proof.
  apply (sibling_pairs_do_not_interfere (λ _, None) one_record_store
           "NSP-BRI-01" "2025-01-01T00:01:57" (JStr "A1", JStr "charging")
           [] [(JStr "A2", JStr "available")] [(JInt 3, JBool true)] []
           true
           (record (λ _, None) one_record_store "NSP-BRI-01"
              "2025-01-01T00:01:57"
              ([] ++ (JStr "A1", JStr "charging") ::
                     [(JStr "A2", JStr "available")])).2
           true
           (record (λ _, None) one_record_store "NSP-BRI-01"
              "2025-01-01T00:01:57"
              ([(JInt 3, JBool true)] ++ (JStr "A1", JStr "charging") ::
                     [])).2).
  - intros q' ->%list_elem_of_singleton. vm_compute. discriminate.
  - intros q' ->%list_elem_of_singleton. vm_compute. discriminate.
  - vm_compute. reflexivity.
  - vm_compute. reflexivity.
Defined.
